(** * AgentAssistPayClient: the capture-sequencing controller

    A shallow embedding of [src/AgentAssistPayClient.js].  The class is a
    JavaScript event emitter that owns a working capture order, talks to a
    remote capture API through [axios.post], and listens to a Twilio Sync
    map for progress notifications.

    Conventions of the embedding.
    - JavaScript values that the code receives from outside (constructor
      arguments, HTTP responses, notification payloads) are [jsval]s.
    - [this._captureOrder[0]] is [head] of the list: [None] is [undefined].
    - Every method is a computation in the monad [M]: it transforms the
      [world] (the object's fields plus the replies the environment will
      give), may complete normally or throw, and yields the list of
      externally visible effects it performed, oldest first.  Mutations and
      effects made before a throw persist, as in JavaScript.
    - An [await] is a sequential step whose reply is read from the
      environment; a call to an async method that the source does not await
      is run to its end in place, so every method and every handler is
      modelled as running without interleaving.
    - Strings are byte strings: a JavaScript string is represented by its
      UTF-8 encoding, and [trim] strips the encodings of the white-space
      and line-terminator characters of ECMAScript. *)

From Stdlib Require Import ZArith Lia Ascii String DecimalString.
From stdpp Require Import base list.

Local Open Scope string_scope.
Local Open Scope list_scope.

(** ** JavaScript values *)

#[warnings="-register-all"]
Inductive jsval : Type :=
| JUndefined
| JNull
| JBool (b : bool)
| JNum (n : Z)
| JStr (s : string)
| JArr (l : list jsval).

(** ToBoolean. *)
Definition truthy (v : jsval) : bool :=
  match v with
  | JUndefined | JNull => false
  | JBool b => b
  | JNum n => negb (n =? 0)%Z
  | JStr s => negb (s =? "")
  | JArr _ => true
  end.

Inductive error : Type :=
| TypeError (msg : string)
| Rejected (reason : string).

(** ** String primitives used by the class *)

(** [String.prototype.split(",")]. *)
Fixpoint split_comma (s : string) : list string :=
  match s with
  | EmptyString => [EmptyString]
  | String c s' =>
      if Ascii.eqb c "," then EmptyString :: split_comma s'
      else match split_comma s' with
           | [] => [String c EmptyString]
           | w :: ws => String c w :: ws
           end
  end.

(** The bytes of a string given by their codes. *)
Definition bytes (l : list nat) : string :=
  fold_right (fun n s => String (ascii_of_nat n) s) EmptyString l.

(** The characters that [String.prototype.trim] strips, in UTF-8: the
    WhiteSpace and LineTerminator code points of ECMAScript, that is
    U+0009 to U+000D, U+0020, U+00A0, U+1680, U+2000 to U+200A, U+2028,
    U+2029, U+202F, U+205F, U+3000 and U+FEFF. *)
Definition white_space : list string :=
  List.map bytes
    [[9]; [10]; [11]; [12]; [13]; [32];
     [194; 160];
     [225; 154; 128];
     [226; 128; 128]; [226; 128; 129]; [226; 128; 130]; [226; 128; 131];
     [226; 128; 132]; [226; 128; 133]; [226; 128; 134]; [226; 128; 135];
     [226; 128; 136]; [226; 128; 137]; [226; 128; 138];
     [226; 128; 168]; [226; 128; 169];
     [226; 128; 175];
     [226; 129; 159];
     [227; 128; 128];
     [239; 187; 191]].

(** [s] without its prefix [p], when it has that prefix. *)
Fixpoint strip_prefix (p s : string) : option string :=
  match p, s with
  | EmptyString, _ => Some s
  | String a p', String b s' => if Ascii.eqb a b then strip_prefix p' s' else None
  | String _ _, EmptyString => None
  end.

(** [s] without the first of the strings [ps] that it starts with. *)
Fixpoint strip_any (ps : list string) (s : string) : option string :=
  match ps with
  | [] => None
  | p :: ps' =>
      match strip_prefix p s with
      | Some r => Some r
      | None => strip_any ps' s
      end
  end.

(** Strips leading occurrences of the strings [ps], at most [fuel] of
    them; the length of the string is fuel enough. *)
Fixpoint drop_leading (ps : list string) (fuel : nat) (s : string) : string :=
  match fuel with
  | O => s
  | S fuel' =>
      match strip_any ps s with
      | Some r => drop_leading ps fuel' r
      | None => s
      end
  end.

Fixpoint string_rev (s : string) : string :=
  match s with
  | EmptyString => EmptyString
  | String c s' => string_rev s' ++ String c EmptyString
  end.

(** [String.prototype.trimStart] and [String.prototype.trimEnd]. *)
Definition trim_start (s : string) : string :=
  drop_leading white_space (String.length s) s.

Definition trim_end (s : string) : string :=
  string_rev
    (drop_leading (List.map string_rev white_space) (String.length s)
       (string_rev s)).

(** [String.prototype.trim]. *)
Definition trim (s : string) : string := trim_end (trim_start s).

(** [String.prototype.includes]: substring search. *)
Fixpoint str_includes (needle hay : string) : bool :=
  String.prefix needle hay
  || match hay with
     | EmptyString => false
     | String _ hay' => str_includes needle hay'
     end.

(** [Date.now().toString()] on an integer time stamp. *)
Definition num_to_string (n : Z) : string := NilZero.string_of_int (Z.to_int n).

(** SameValueZero between [this._captureOrder[0]] (a string, or [undefined]
    on an empty order) and an array element.  Array elements that are
    themselves arrays are objects, compared by identity, and are never
    identical to a string or to [undefined]. *)
Definition same_value_zero (x : option string) (y : jsval) : bool :=
  match x, y with
  | Some f, JStr g => f =? g
  | None, JUndefined => true
  | _, _ => false
  end.

(** ToString of the search value of [String.prototype.includes]. *)
Definition search_string (x : option string) : string :=
  match x with
  | Some f => f
  | None => "undefined"
  end.

Inductive outcome (A : Type) : Type :=
| Normal (a : A)
| Throw (e : error).
Arguments Normal {A} a.
Arguments Throw {A} e.

(** [recv.includes(x)]: defined on strings and arrays, a TypeError on the
    other values. *)
Definition js_includes (recv : jsval) (x : option string) : outcome bool :=
  match recv with
  | JStr s => Normal (str_includes (search_string x) s)
  | JArr l => Normal (existsb (same_value_zero x) l)
  | JUndefined | JNull => Throw (TypeError "Cannot read properties of undefined")
  | JBool _ | JNum _ => Throw (TypeError "includes is not a function")
  end.

(** [recv.length > 0] on a value that has a length. *)
Definition js_nonempty (recv : jsval) : bool :=
  match recv with
  | JStr s => negb (s =? "")
  | JArr l => negb (Nat.eqb (List.length l) 0)
  | _ => false
  end.

(** ** The object and its environment *)

(** The Sync map handle kept in [this._payMap]: whether this client's
    [itemUpdated] listener is registered on it and whether it is open. *)
Record sync_map : Type := SyncMap {
  sm_listening : bool;
  sm_open : bool
}.

(** The fields of an [AgentAssistPayClient] instance. *)
Record client : Type := Client {
  functionsURL : string;
  identity : string;
  syncToken : string;
  paymentConnector : string;
  _captureOrder : list string;
  _captureOrderTemplate : list string;
  currency : string;
  tokenType : string;
  _analytics : bool;
  callSid : jsval;
  _statusCallback : string;
  _syncClient : bool;
  _payMap : option sync_map;
  _paySid : jsval;
  _capture : jsval;
  _partialResult : jsval;
  _required : jsval
}.

Definition set_captureOrder (o : list string) (c : client) : client :=
  Client (functionsURL c) (identity c) (syncToken c) (paymentConnector c)
    o (_captureOrderTemplate c) (currency c) (tokenType c) (_analytics c)
    (callSid c) (_statusCallback c) (_syncClient c) (_payMap c)
    (_paySid c) (_capture c) (_partialResult c) (_required c).

Definition set_callSid (v : jsval) (c : client) : client :=
  Client (functionsURL c) (identity c) (syncToken c) (paymentConnector c)
    (_captureOrder c) (_captureOrderTemplate c) (currency c) (tokenType c)
    (_analytics c) v (_statusCallback c) (_syncClient c) (_payMap c)
    (_paySid c) (_capture c) (_partialResult c) (_required c).

Definition set_statusCallback (s : string) (c : client) : client :=
  Client (functionsURL c) (identity c) (syncToken c) (paymentConnector c)
    (_captureOrder c) (_captureOrderTemplate c) (currency c) (tokenType c)
    (_analytics c) (callSid c) s (_syncClient c) (_payMap c)
    (_paySid c) (_capture c) (_partialResult c) (_required c).

Definition set_syncClient (b : bool) (c : client) : client :=
  Client (functionsURL c) (identity c) (syncToken c) (paymentConnector c)
    (_captureOrder c) (_captureOrderTemplate c) (currency c) (tokenType c)
    (_analytics c) (callSid c) (_statusCallback c) b (_payMap c)
    (_paySid c) (_capture c) (_partialResult c) (_required c).

Definition set_payMap (m : option sync_map) (c : client) : client :=
  Client (functionsURL c) (identity c) (syncToken c) (paymentConnector c)
    (_captureOrder c) (_captureOrderTemplate c) (currency c) (tokenType c)
    (_analytics c) (callSid c) (_statusCallback c) (_syncClient c) m
    (_paySid c) (_capture c) (_partialResult c) (_required c).

Definition set_paySid (v : jsval) (c : client) : client :=
  Client (functionsURL c) (identity c) (syncToken c) (paymentConnector c)
    (_captureOrder c) (_captureOrderTemplate c) (currency c) (tokenType c)
    (_analytics c) (callSid c) (_statusCallback c) (_syncClient c) (_payMap c)
    v (_capture c) (_partialResult c) (_required c).

Definition set_capture (v : jsval) (c : client) : client :=
  Client (functionsURL c) (identity c) (syncToken c) (paymentConnector c)
    (_captureOrder c) (_captureOrderTemplate c) (currency c) (tokenType c)
    (_analytics c) (callSid c) (_statusCallback c) (_syncClient c) (_payMap c)
    (_paySid c) v (_partialResult c) (_required c).

Definition set_partialResult (v : jsval) (c : client) : client :=
  Client (functionsURL c) (identity c) (syncToken c) (paymentConnector c)
    (_captureOrder c) (_captureOrderTemplate c) (currency c) (tokenType c)
    (_analytics c) (callSid c) (_statusCallback c) (_syncClient c) (_payMap c)
    (_paySid c) (_capture c) v (_required c).

Definition set_required (v : jsval) (c : client) : client :=
  Client (functionsURL c) (identity c) (syncToken c) (paymentConnector c)
    (_captureOrder c) (_captureOrderTemplate c) (currency c) (tokenType c)
    (_analytics c) (callSid c) (_statusCallback c) (_syncClient c) (_payMap c)
    (_paySid c) (_capture c) (_partialResult c) v.

(** The [data] object of an [itemUpdated] notification, and the
    notification itself ([args.item]). *)
Record item_data : Type := ItemData {
  Capture : jsval;
  PartialResult : jsval;
  Required : jsval
}.

Record item : Type := Item {
  key : string;
  data : item_data
}.

(** Bodies of the three POST requests. *)
Inductive request : Type :=
| StartCaptureReq (callSid : jsval) (idempotencyKey statusCallback : string)
    (chargeAmount : Z) (tokenType currency paymentConnector : string)
    (securityCode postalCode : bool)
| UpdateCaptureTypeReq (callSid paySid : jsval) (captureType : option string)
    (idempotencyKey statusCallback : string)
| ChangeSessionReq (callSid paySid : jsval) (status : string)
    (idempotencyKey statusCallback : string).

Inductive payload : Type :=
| NoArg
| Arg (v : jsval)
| Data (d : item_data).

(** What the object does to the outside, in the order it does it.
    [LogError] is the [console.error] (in [cancelCapture] and [detachPay],
    [console.log]) of a [catch] block; the other console output of the
    class is not recorded. *)
Inductive effect : Type :=
| Emit (event : string) (arg : payload)
| Post (url : string) (body : request)
| NewSyncClient (token : string)
| OpenMap (name : string)
| MapOn (map event : string)
| MapRemove (k : jsval)
| MapRemoveAllListeners
| MapClose
| Track (method ident : string) (call : jsval)
    (captureType : option (option string)) (timeStamp : Z)
| LogError (method : string) (e : error).

(** The environment's answer to one remote interaction. *)
Inductive reply : Type :=
| Resolve (v : jsval)
| Reject (e : error).

(** The object together with its environment: [net k] answers the [k]-th
    remote interaction and [clock k] is what [Date.now()] reads while [k]
    interactions have been made. *)
Record world : Type := World {
  self : client;
  tick : nat;
  net : nat -> reply;
  clock : nat -> Z
}.

(** ** The monad of methods *)

Definition M (A : Type) : Type := world -> outcome A * world * list effect.

Definition ret {A} (a : A) : M A := fun w => (Normal a, w, []).

Definition bind {A B} (m : M A) (k : A -> M B) : M B := fun w =>
  match m w with
  | (Normal a, w1, t1) => let '(r, w2, t2) := k a w1 in (r, w2, t1 ++ t2)
  | (Throw e, w1, t1) => (Throw e, w1, t1)
  end.

Definition throw {A} (e : error) : M A := fun w => (Throw e, w, []).

Definition try_catch {A} (body : M A) (handler : error -> M A) : M A := fun w =>
  match body w with
  | (Normal a, w1, t1) => (Normal a, w1, t1)
  | (Throw e, w1, t1) => let '(r, w2, t2) := handler e w1 in (r, w2, t1 ++ t2)
  end.

Definition get : M client := fun w => (Normal (self w), w, []).

Definition modify (f : client -> client) : M unit := fun w =>
  (Normal tt, World (f (self w)) (tick w) (net w) (clock w), []).

Definition perform (e : effect) : M unit := fun w => (Normal tt, w, [e]).

Definition lift {A} (o : outcome A) : M A := fun w => (o, w, []).

(** One remote interaction: the request [e] goes out, the reply comes from
    the environment; a rejected promise (or a throwing constructor) is an
    exception at the [await]. *)
Definition next (w : world) : world :=
  World (self w) (S (tick w)) (net w) (clock w).

Definition await (e : effect) : M jsval := fun w =>
  match net w (tick w) with
  | Resolve v => (Normal v, next w, [e])
  | Reject err => (Throw err, next w, [e])
  end.

Definition date_now : M Z := fun w => (Normal (clock w (tick w)), w, []).

Declare Scope js_scope.
Delimit Scope js_scope with js.
Notation "'let*' x ':=' m 'in' k" := (bind m (fun x => k))
  (at level 10, x name, m at level 100, k at level 200) : js_scope.
Notation "m ';;' k" := (bind m (fun _ => k))
  (at level 100, k at level 200, right associativity) : js_scope.
Local Open Scope js_scope.

Definition emit (event : string) (arg : payload) : M unit :=
  perform (Emit event arg).

(** [if (this._analytics) this._analytics.track(method, {...})]. *)
Definition track (method : string) (extra : option (option string)) : M unit :=
  let* c := get in
  if _analytics c then
    let* now := date_now in
    perform (Track method (identity c) (callSid c) extra now)
  else ret tt.

Definition log_error (method : string) (e : error) : M unit :=
  perform (LogError method e).

(** [this.identity + Date.now().toString()]. *)
Definition idempotency_key (c : client) (now : Z) : string :=
  identity c ++ num_to_string now.

(** ** The methods of the class *)

Definition default_captureOrder : jsval :=
  JArr [JStr "payment-card-number, security-code, expiration-date"].

(** [constructor(functionsURL, identity, syncToken, paymentConnector,
    captureOrder, currency, tokenType, writeKey)].  An argument that is
    [undefined] (or omitted: [None]) takes its default.  The step that can
    throw is [captureOrder.split(",")]; it comes before any field of the
    capture state is assigned.  The bearer header set on [axios] and the
    analytics client are outside the object: of the latter only its
    presence, [_analytics], is kept. *)
Definition constructor (functionsURL identity syncToken paymentConnector : string)
    (captureOrder : jsval) (currency tokenType : option string)
    (writeKey : jsval) : outcome client :=
  let captureOrder :=
    match captureOrder with
    | JUndefined => default_captureOrder
    | v => v
    end in
  match captureOrder with
  | JStr s =>
      let order := List.map trim (split_comma s) in
      Normal (Client functionsURL identity syncToken paymentConnector
                order order
                (default "USD" currency) (default "reusable" tokenType)
                (truthy writeKey)
                JNull "" false None (JStr "")
                (JStr "") (JBool true) (JStr ""))
  | JUndefined | JNull =>
      Throw (TypeError "Cannot read properties of null (reading 'split')")
  | JBool _ | JNum _ | JArr _ =>
      Throw (TypeError "captureOrder.split is not a function")
  end.

(** The [switch (captureType)] of [_updateCaptureType]: the event of the
    matching [case], none when no [case] matches. *)
Definition capturing_event (captureType : option string) : option string :=
  match captureType with
  | Some t =>
      if t =? "payment-card-number" then Some "capturingCard"
      else if t =? "security-code" then Some "capturingSecurityCode"
      else if t =? "expiration-date" then Some "capturingDate"
      else None
  | None => None
  end.

(** [_updateCaptureType(captureType)]. *)
Definition _updateCaptureType (captureType : option string) : M unit :=
  let* c := get in
  let* now := date_now in
  let data :=
    UpdateCaptureTypeReq (callSid c) (_paySid c) captureType
      (idempotency_key c now) (_statusCallback c) in
  try_catch
    (let* _ := await (Post (functionsURL c ++ "/updateCaptureType") data) in
     match capturing_event captureType with
     | Some event => emit event NoArg
     | None => ret tt
     end;;
     track "_updateCaptureType" (Some captureType))
    (fun e => log_error "_updateCaptureType" e).

(** [_checkPayProgress()]. *)
Definition _checkPayProgress : M unit :=
  let* c := get in
  if truthy (_capture c) then
    let* still := lift (js_includes (_required c) (head (_captureOrder c))) in
    if still then ret tt
    else if js_nonempty (_required c) then
      modify (fun c => set_captureOrder (tail (_captureOrder c)) c);;
      let* c := get in
      _updateCaptureType (head (_captureOrder c))
    else emit "captureComplete" NoArg
  else ret tt.

(** [_changeSession(changeType)]. *)
Definition _changeSession (changeType : string) : M unit :=
  modify (fun c => set_captureOrder (_captureOrderTemplate c) c);;
  let* c := get in
  let* now := date_now in
  let data :=
    ChangeSessionReq (callSid c) (_paySid c) changeType
      (idempotency_key c now) (_statusCallback c) in
  try_catch
    (let* _ := await (Post (functionsURL c ++ "/changeSession") data) in ret tt)
    (fun e => log_error "_changeSession" e).

(** [Array.prototype.includes] on the capture order, an array of strings. *)
Definition order_includes (f : string) (o : list string) : bool :=
  existsb (String.eqb f) o.

(** [startCapture()]. *)
Definition startCapture : M unit :=
  modify (fun c => set_captureOrder (_captureOrderTemplate c) c);;
  let* c := get in
  let* now := date_now in
  let data :=
    StartCaptureReq (callSid c) (idempotency_key c now) (_statusCallback c)
      0 (tokenType c) (currency c) (paymentConnector c)
      (order_includes "security-code" (_captureOrder c))
      (order_includes "postal-code" (_captureOrder c)) in
  try_catch
    (let* response := await (Post (functionsURL c ++ "/startCapture") data) in
     modify (set_paySid response);;
     emit "capturing" NoArg;;
     let* c := get in
     _updateCaptureType (head (_captureOrder c));;
     track "startCapture" None)
    (fun e => log_error "startCapture" e).

(** [updateCallSid(callSid)]. *)
Definition updateCallSid (sid : jsval) : M unit :=
  modify (set_callSid sid);;
  emit "callConnected" (Arg sid).

(** [this._captureOrder[0] === field]. *)
Definition front_is (field : string) (o : list string) : bool :=
  match head o with
  | Some f => f =? field
  | None => false
  end.

(** The common shape of [resetCard], [resetSecurityCode] and [resetDate]:
    the three bodies differ only in the field, the event and the name
    reported to the analytics. *)
Definition reset_field (field event method : string) : M unit :=
  let* c := get in
  (if front_is field (_captureOrder c) then ret tt
   else
     modify (fun c => set_captureOrder (field :: _captureOrder c) c);;
     emit event NoArg);;
  track method None;;
  let* c := get in
  _updateCaptureType (head (_captureOrder c)).

Definition resetCard : M unit :=
  reset_field "payment-card-number" "cardReset" "resetCard".

Definition resetSecurityCode : M unit :=
  reset_field "security-code" "securityCodeReset" "resetSecurityCode".

Definition resetDate : M unit :=
  reset_field "expiration-date" "dateReset" "resetDate".

(** A method call on [this._payMap], a TypeError while it is [null]. *)
Definition with_payMap {A} (k : sync_map -> M A) : M A :=
  let* c := get in
  match _payMap c with
  | Some m => k m
  | None => throw (TypeError "Cannot read properties of null")
  end.

(** [cancelCapture()]. *)
Definition cancelCapture : M unit :=
  _changeSession "cancel";;
  try_catch
    (with_payMap (fun _ =>
       let* c := get in
       let* _ := await (MapRemove (_paySid c)) in
       emit "cancelledCapture" NoArg;;
       track "cancelCapture" None))
    (fun e => log_error "cancelCapture" e).

(** [submitCapture()]. *)
Definition submitCapture : M unit :=
  _changeSession "complete";;
  emit "submitComplete" NoArg;;
  track "submitCapture" None.

(** [detachPay()]. *)
Definition detachPay : M unit :=
  try_catch
    (with_payMap (fun m =>
       perform MapRemoveAllListeners;;
       modify (set_payMap (Some (SyncMap false (sm_open m))));;
       perform MapClose;;
       modify (set_payMap (Some (SyncMap false false)));;
       emit "stopCapturing" NoArg;;
       track "detachPay" None))
    (fun e => log_error "detachPay" e).

(** The [itemUpdated] listener that [attachPay] registers on the pay map. *)
Definition payMap_itemUpdated (args : item) : M unit :=
  modify (set_paySid (JStr (key args)));;
  modify (set_capture (Capture (data args)));;
  modify (set_partialResult (PartialResult (data args)));;
  modify (set_required (Required (data args)));;
  emit "cardUpdate" (Data (data args));;
  _checkPayProgress.

(** The [itemAdded] listener that [attachPay] registers on the UUI map. *)
Definition uuiMap_itemAdded (pstnSid : jsval) : M unit :=
  modify (set_callSid pstnSid);;
  let* c := get in
  emit "UUIItemAdded" (Arg (callSid c)).

(** [attachPay]'s argument after its default is applied. *)
Definition callSid_argument (sid : jsval) : jsval :=
  match sid with
  | JUndefined => JNull
  | v => v
  end.

(** [attachPay(callSid = null)]. *)
Definition attachPay (sid : jsval) : M unit :=
  modify (set_callSid (callSid_argument sid));;
  modify (fun c => set_statusCallback (functionsURL c ++ "/paySyncUpdate") c);;
  track "attachPay" None;;
  try_catch
    (let* c := get in
     let* _ := await (NewSyncClient (syncToken c)) in
     modify (set_syncClient true);;
     let* _ := await (OpenMap "payMap") in
     modify (set_payMap (Some (SyncMap false true)));;
     let* c := get in
     (if truthy (callSid c) then emit "callConnected" (Arg (callSid c))
      else
        let* _ := await (OpenMap "uuiMap") in
        perform (MapOn "uuiMap" "itemAdded"));;
     perform (MapOn "payMap" "itemUpdated");;
     modify (set_payMap (Some (SyncMap true true))))
    (fun e => log_error "attachPay" e).

(** Delivery of a notification by the current pay map: the listener runs
    when it is registered on that map.  Only the map held in [_payMap] is
    followed: a second successful [attachPay] replaces the handle and
    leaves on the earlier map object a listener that this definition does
    not know of, so [notify] stands for the object's notifications only
    while [attachPay] has registered a listener at most once. *)
Definition notify (args : item) : M unit :=
  let* c := get in
  match _payMap c with
  | Some m => if sm_listening m then payMap_itemUpdated args else ret tt
  | None => ret tt
  end.

(** ** Observations on a run *)

Definition result_of {A} (r : outcome A * world * list effect) : outcome A :=
  r.1.1.

Definition state_of {A} (r : outcome A * world * list effect) : client :=
  self r.1.2.

Definition effects_of {A} (r : outcome A * world * list effect) : list effect :=
  r.2.

(** The names of the events emitted, in order. *)
Definition emitted (t : list effect) : list string :=
  flat_map (fun e => match e with Emit event _ => [event] | _ => [] end) t.

(** The [captureType] of every [updateCaptureType] request issued: the
    fields the remote side was told to prompt for (the spec's
    setActiveField). *)
Definition set_active_fields (t : list effect) : list (option string) :=
  flat_map (fun e =>
    match e with
    | Post _ (UpdateCaptureTypeReq _ _ captureType _ _) => [captureType]
    | _ => []
    end) t.

(** The [Status] of every [changeSession] request issued. *)
Definition status_changes (t : list effect) : list string :=
  flat_map (fun e =>
    match e with
    | Post _ (ChangeSessionReq _ _ status _ _) => [status]
    | _ => []
    end) t.

(** The world with another object in it. *)
Definition with_self (c : client) (w : world) : world :=
  World c (tick w) (net w) (clock w).

(** What [track] contributes to the effects. *)
Definition tracked (method : string) (extra : option (option string))
    (w : world) : list effect :=
  if _analytics (self w)
  then [Track method (identity (self w)) (callSid (self w)) extra
          (clock w (tick w))]
  else [].

(** The request that [_updateCaptureType] sends from a given state. *)
Definition updateCaptureType_request (captureType : option string)
    (w : world) : effect :=
  Post (functionsURL (self w) ++ "/updateCaptureType")
    (UpdateCaptureTypeReq (callSid (self w)) (_paySid (self w)) captureType
       (idempotency_key (self w) (clock w (tick w)))
       (_statusCallback (self w))).

(** What follows the request: the capturing event and the analytics call
    when the request is acknowledged, the logged error when it fails. *)
Definition updateCaptureType_after (captureType : option string)
    (w : world) : list effect :=
  match net w (tick w) with
  | Resolve _ =>
      match capturing_event captureType with
      | Some event => [Emit event NoArg]
      | None => []
      end ++ tracked "_updateCaptureType" (Some captureType) (next w)
  | Reject e => [LogError "_updateCaptureType" e]
  end.

(** Values that have [includes] and [length]: strings and arrays. *)
Definition is_collection (v : jsval) : bool :=
  match v with
  | JStr _ | JArr _ => true
  | _ => false
  end.

(** [R.includes(F)] on a value that has [includes]. *)
Definition member (F : option string) (R : jsval) : bool :=
  match js_includes R F with
  | Normal b => b
  | Throw _ => false
  end.

(** The list operation of the reset methods: the field goes to the front
    unless it is the front already. *)
Definition prepend (field : string) (o : list string) : list string :=
  if front_is field o then o else field :: o.

(** The public commands that issue a remote call. *)
Inductive command : Type :=
| CStartCapture
| CSubmitCapture
| CCancelCapture
| CResetCard
| CResetSecurityCode
| CResetDate.

Definition exec (cmd : command) : M unit :=
  match cmd with
  | CStartCapture => startCapture
  | CSubmitCapture => submitCapture
  | CCancelCapture => cancelCapture
  | CResetCard => resetCard
  | CResetSecurityCode => resetSecurityCode
  | CResetDate => resetDate
  end.

(** The working order a command installs before it issues its request. *)
Definition order_at_call (cmd : command) (c : client) : list string :=
  match cmd with
  | CStartCapture | CSubmitCapture | CCancelCapture => _captureOrderTemplate c
  | CResetCard => prepend "payment-card-number" (_captureOrder c)
  | CResetSecurityCode => prepend "security-code" (_captureOrder c)
  | CResetDate => prepend "expiration-date" (_captureOrder c)
  end.


(** The snapshot assignments of the [itemUpdated] listener. *)
Definition apply_item (args : item) (c : client) : client :=
  set_required (Required (data args))
    (set_partialResult (PartialResult (data args))
       (set_capture (Capture (data args))
          (set_paySid (JStr (key args)) c))).

(** The request that [_changeSession] sends from a given state. *)
Definition changeSession_request (changeType : string) (w : world) : effect :=
  Post (functionsURL (self w) ++ "/changeSession")
    (ChangeSessionReq (callSid (self w)) (_paySid (self w)) changeType
       (idempotency_key (self w) (clock w (tick w)))
       (_statusCallback (self w))).

(** The request that [startCapture] sends from a given state. *)
Definition startCapture_request (w : world) : effect :=
  Post (functionsURL (self w) ++ "/startCapture")
    (StartCaptureReq (callSid (self w))
       (idempotency_key (self w) (clock w (tick w)))
       (_statusCallback (self w)) 0 (tokenType (self w)) (currency (self w))
       (paymentConnector (self w))
       (order_includes "security-code" (_captureOrder (self w)))
       (order_includes "postal-code" (_captureOrder (self w)))).

(** The world once the working order is reset to the template. *)
Definition reset_order (w : world) : world :=
  with_self (set_captureOrder (_captureOrderTemplate (self w)) (self w)) w.

(** The logged error of a failed request, nothing otherwise. *)
Definition logged (method : string) (r : reply) : list effect :=
  match r with
  | Resolve _ => []
  | Reject e => [LogError method e]
  end.

(** The listener of the pay map is registered: notifications reach the
    controller. *)
Definition attached (c : client) : bool :=
  match _payMap c with
  | Some m => sm_listening m
  | None => false
  end.

(** ** Sample states *)

Definition sample_template : list string :=
  ["payment-card-number"; "security-code"; "expiration-date"].

(** A client in the middle of a capture, with the given working order and
    snapshot. *)
Definition sample_client (order : list string) (capture required : jsval) : client :=
  Client "https://pay.example" "agent" "token" "connector"
    order sample_template "USD" "reusable" false
    (JStr "CA1") "https://pay.example/paySyncUpdate" true
    (Some (SyncMap true true)) (JStr "PK1") capture (JBool true) required.

(** An environment that acknowledges every request, and one where every
    request fails. *)
Definition net_up : nat -> reply := fun _ => Resolve (JStr "PK2").
Definition net_down : nat -> reply := fun _ => Reject (Rejected "Network Error").

Definition sample_world (c : client) (n : nat -> reply) : world :=
  World c 0 n (fun _ => 1700000000000%Z).

(** Capture in progress on the full template, every field still required. *)
Definition all_required : jsval :=
  JArr [JStr "payment-card-number"; JStr "security-code"; JStr "expiration-date"].

Definition w_start_up : world :=
  sample_world (sample_client sample_template (JBool true) all_required) net_up.

Definition w_start_down : world :=
  sample_world (sample_client sample_template (JBool true) all_required) net_down.

(** Capture in progress with only the expiration date left. *)
Definition w_date_up : world :=
  sample_world
    (sample_client ["expiration-date"] (JBool true) (JArr [JStr "expiration-date"]))
    net_up.

Definition w_date_down : world :=
  sample_world
    (sample_client ["expiration-date"] (JBool true) (JArr [JStr "expiration-date"]))
    net_down.

(** The same state in an environment that answers the first request and
    refuses the following ones. *)
Definition net_second_down : nat -> reply := fun k =>
  match k with
  | O => Resolve (JStr "PK2")
  | S _ => Reject (Rejected "Network Error")
  end.

Definition w_date_second_down : world :=
  sample_world
    (sample_client ["expiration-date"] (JBool true) (JArr [JStr "expiration-date"]))
    net_second_down.

(** A notification that belongs to another session. *)
Definition stale_item : item :=
  Item "PK-stale"
    (ItemData (JBool true) (JBool false)
       (JArr [JStr "security-code"; JStr "expiration-date"])).

(** The object that [new AgentAssistPayClient(...)] yields for the usual
    three-field capture order, and the one for a card-number-only order. *)
Definition new_client : client :=
  Client "https://pay.example" "agent" "token" "connector"
    sample_template sample_template "USD" "reusable" false
    JNull "" false None (JStr "") (JStr "") (JBool true) (JStr "").

Definition card_only_client : client :=
  Client "https://pay.example" "agent" "token" "connector"
    ["payment-card-number"] ["payment-card-number"] "USD" "reusable" false
    JNull "" false None (JStr "") (JStr "") (JBool true) (JStr "").

(** An environment in which the Sync client is created but the pay map
    cannot be opened. *)
Definition net_no_map : nat -> reply := fun k =>
  match k with
  | O => Resolve JUndefined
  | S _ => Reject (Rejected "Sync map unavailable")
  end.

Definition w_new_no_map : world := sample_world new_client net_no_map.

(** The card number has been captured; the remote side still requires
    fields that the configured order does not list. *)
Definition more_required_item : item :=
  Item "PK2"
    (ItemData (JBool true) (JBool false) (JStr "expiration-date, security-code")).

(** [attachPay("CA1")] followed by [startCapture()]. *)
Definition attach_and_start : M unit :=
  attachPay (JStr "CA1");; startCapture.

(** A freshly constructed client, built from a capture-order string. *)
Definition fresh_client (captureOrder : string) : outcome client :=
  constructor "https://pay.example" "agent" "token" "connector"
    (JStr captureOrder) None None JNull.

(** ** Every way the object is entered *)

(** The public methods and the two listeners. *)
Inductive operation : Type :=
| OAttachPay (sid : jsval)
| OStartCapture
| OCancelCapture
| OSubmitCapture
| OResetCard
| OResetSecurityCode
| OResetDate
| OUpdateCallSid (sid : jsval)
| ODetachPay
| OItemUpdated (args : item)
| OItemAdded (pstnSid : jsval).

Definition run_op (op : operation) : M unit :=
  match op with
  | OAttachPay sid => attachPay sid
  | OStartCapture => startCapture
  | OCancelCapture => cancelCapture
  | OSubmitCapture => submitCapture
  | OResetCard => resetCard
  | OResetSecurityCode => resetSecurityCode
  | OResetDate => resetDate
  | OUpdateCallSid sid => updateCallSid sid
  | ODetachPay => detachPay
  | OItemUpdated args => payMap_itemUpdated args
  | OItemAdded pstnSid => uuiMap_itemAdded pstnSid
  end.

(** The methods a caller invokes, as opposed to the listeners the Sync
    maps invoke. *)
Definition is_method (op : operation) : bool :=
  match op with
  | OItemUpdated _ | OItemAdded _ => false
  | _ => true
  end.

(** The fields the constructor sets from its arguments. *)
Definition config (c : client) :
    string * string * string * string * list string * string * string * bool :=
  (functionsURL c, identity c, syncToken c, paymentConnector c,
   _captureOrderTemplate c, currency c, tokenType c, _analytics c).

(** The payment state mirrored from the notifications. *)
Definition snapshot (c : client) : jsval * jsval * jsval :=
  (_capture c, _partialResult c, _required c).

(** An operation leaves an observation [f] of the object as it was. *)
Definition keeps {A X : Type} (f : client -> X) (m : M A) : Prop :=
  forall w, f (state_of (m w)) = f (self w).

(** An operation completes normally in every world. *)
Definition completes {A : Type} (m : M A) : Prop :=
  forall w, exists a, result_of (m w) = Normal a.

(** The operations that assign the session id, the call id, the working
    order, the snapshot and the pay-map handle. *)
Definition assigns_paySid (op : operation) : bool :=
  match op with
  | OStartCapture | OItemUpdated _ => true
  | _ => false
  end.

Definition assigns_callSid (op : operation) : bool :=
  match op with
  | OAttachPay _ | OUpdateCallSid _ | OItemAdded _ => true
  | _ => false
  end.

Definition assigns_captureOrder (op : operation) : bool :=
  match op with
  | OAttachPay _ | OUpdateCallSid _ | ODetachPay | OItemAdded _ => false
  | _ => true
  end.

Definition assigns_snapshot (op : operation) : bool :=
  match op with
  | OItemUpdated _ => true
  | _ => false
  end.

Definition assigns_payMap (op : operation) : bool :=
  match op with
  | OAttachPay _ | ODetachPay => true
  | _ => false
  end.

(** The POST requests issued, in order. *)
Definition posted (t : list effect) : list request :=
  flat_map (fun e => match e with Post _ body => [body] | _ => [] end) t.

(** A remote interaction was answered, not refused. *)
Definition resolved (r : reply) : bool :=
  match r with
  | Resolve _ => true
  | Reject _ => false
  end.

(** The keys of the pay-map items the object asked to remove. *)
Definition removed_keys (t : list effect) : list jsval :=
  flat_map (fun e => match e with MapRemove k => [k] | _ => [] end) t.

(** The [SecurityCode] and [PostalCode] flags of every [startCapture]
    request issued. *)
Definition start_flags (t : list effect) : list (bool * bool) :=
  flat_map (fun e =>
    match e with
    | Post _ (StartCaptureReq _ _ _ _ _ _ _ securityCode postalCode) =>
        [(securityCode, postalCode)]
    | _ => []
    end) t.

(** The session id carried by every [updateCaptureType] request issued. *)
Definition update_sessions (t : list effect) : list jsval :=
  flat_map (fun e =>
    match e with
    | Post _ (UpdateCaptureTypeReq _ paySid _ _ _) => [paySid]
    | _ => []
    end) t.

(** The reset methods with their field and their event. *)
Definition reset_table : list (string * string * M unit) :=
  [("payment-card-number", "cardReset", resetCard);
   ("security-code", "securityCodeReset", resetSecurityCode);
   ("expiration-date", "dateReset", resetDate)].

(** ** Vocabulary for the capture-order string *)

(** [Array.prototype.join(",")]. *)
Fixpoint join_comma (l : list string) : string :=
  match l with
  | [] => ""
  | [x] => x
  | x :: rest => x ++ "," ++ join_comma rest
  end.

Fixpoint count_commas (s : string) : nat :=
  match s with
  | EmptyString => 0
  | String c s' => (if Ascii.eqb c "," then 1 else 0) + count_commas s'
  end.

Fixpoint has_comma (s : string) : bool :=
  match s with
  | EmptyString => false
  | String c s' => Ascii.eqb c "," || has_comma s'
  end.

(** A concatenation of strings of [ps]. *)
Inductive run (ps : list string) : string -> Prop :=
| run_nil : run ps ""
| run_cons (p s : string) : p ∈ ps -> run ps s -> run ps (p ++ s).

(** A run of white-space characters. *)
Definition spaces : string -> Prop := run white_space.

(** The string starts, or ends, with a white-space character. *)
Definition space_at_start (s : string) : Prop :=
  exists p r, p ∈ white_space /\ s = (p ++ r)%string.

Definition space_at_end (s : string) : Prop :=
  exists p r, p ∈ white_space /\ s = (r ++ p)%string.

(** A part of the split string and the field made of it: the field with
    white space around it. *)
Definition padded (part field : string) : Prop :=
  exists pre post,
    part = (pre ++ field ++ post)%string /\ spaces pre /\ spaces post.

(** ** A capture that follows the working order *)





(** ** The events of the class *)

(** Every event name that occurs in an [emit] of the class. *)
Definition events : list string :=
  ["callConnected"; "UUIItemAdded"; "cardUpdate"; "capturing";
   "capturingCard"; "capturingSecurityCode"; "capturingDate";
   "captureComplete"; "cardReset"; "securityCodeReset"; "dateReset";
   "cancelledCapture"; "submitComplete"; "stopCapturing"].

(** An operation emits only events of [L]. *)
Definition speaks {A : Type} (L : list string) (m : M A) : Prop :=
  forall w ev, ev ∈ emitted (effects_of (m w)) -> ev ∈ L.

(** [F] occurs in [s]: [s] is [F] with something before and after it. *)
Definition occurs_in (F s : string) : Prop :=
  exists pre post, s = (pre ++ F ++ post)%string.

(** Capture in progress on the one field of the capture order "", the
    required set being the empty string. *)
Definition w_empty_name : world :=
  sample_world (sample_client [""] (JBool true) (JStr "")) net_up.

(** Capture in progress on a field whose name is part of another field's
    name, the required set being a string. *)
Definition w_code_field : world :=
  sample_world (sample_client ["code"] (JBool true) (JStr "security-code")) net_up.

(** The session id carried by every [changeSession] request issued. *)
Definition change_sessions (t : list effect) : list jsval :=
  flat_map (fun e =>
    match e with
    | Post _ (ChangeSessionReq _ paySid _ _ _) => [paySid]
    | _ => []
    end) t.

(** ** Proof automation *)

(** Unfolds the monad's primitives and computes. *)
Ltac js_run :=
  repeat (progress (unfold bind, try_catch, await, get, modify, perform, emit,
                      track, date_now, lift, ret, throw, log_error,
                      with_payMap, with_self, next;
                    simpl)).

(** Settles [NoDup] of a list of distinct string literals. *)
Ltac nodup_literals :=
  repeat (apply NoDup_cons; split);
  [rewrite ?not_elem_of_cons; repeat split; try discriminate;
   apply not_elem_of_nil .. | apply NoDup_nil; exact I].

(** ** Basic facts about the primitives *)

Section MonadLaws.
Context {A B C : Type}.

Lemma bind_ret_l (a : A) (k : A -> M B) (w : world) :
  bind (ret a) k w = k a w.
Proof. unfold bind, ret. destruct (k a w) as [[r w'] t]. reflexivity. Qed.

Lemma bind_ret_r (m : M A) (w : world) : bind m ret w = m w.
Proof.
  unfold bind, ret. destruct (m w) as [[[a|e] w'] t]; [|reflexivity].
  rewrite app_nil_r. reflexivity.
Qed.

Lemma bind_assoc (m : M A) (k : A -> M B) (h : B -> M C) (w : world) :
  bind (bind m k) h w = bind m (fun a => bind (k a) h) w.
Proof.
  unfold bind. destruct (m w) as [[[a|e] w1] t1]; [|reflexivity].
  destruct (k a w1) as [[[b|e] w2] t2]; [|reflexivity].
  destruct (h b w2) as [[r w3] t3]. rewrite app_assoc. reflexivity.
Qed.

(** A body that throws at once hands the error to the handler, which runs
    on the state as it is. *)
Lemma try_catch_throw (e : error) (handler : error -> M A) (w : world) :
  try_catch (throw e) handler w = handler e w.
Proof.
  unfold try_catch, throw. destruct (handler e w) as [[r w'] t]. reflexivity.
Qed.
End MonadLaws.

Lemma track_run method extra w :
  track method extra w = (Normal tt, w, tracked method extra w).
Proof.
  unfold track, tracked, bind, get, date_now, perform, ret.
  destruct (_analytics (self w)); reflexivity.
Qed.

Lemma updateCaptureType_run captureType w :
  _updateCaptureType captureType w =
    (Normal tt, next w,
     updateCaptureType_request captureType w
       :: updateCaptureType_after captureType w).
Proof.
  unfold _updateCaptureType, updateCaptureType_request, updateCaptureType_after.
  unfold bind at 1 2; cbn [get date_now].
  unfold try_catch, bind at 1, await.
  destruct (net w (tick w)) as [v|e]; [|reflexivity].
  unfold bind.
  destruct (capturing_event captureType); cbn [emit perform ret];
    rewrite track_run; reflexivity.
Qed.

Lemma emitted_app t1 t2 : emitted (t1 ++ t2) = emitted t1 ++ emitted t2.
Proof. unfold emitted. apply flat_map_app. Qed.

Lemma set_active_fields_app t1 t2 :
  set_active_fields (t1 ++ t2) = set_active_fields t1 ++ set_active_fields t2.
Proof. unfold set_active_fields. apply flat_map_app. Qed.

Lemma emitted_tracked method extra w : emitted (tracked method extra w) = [].
Proof. unfold tracked. destruct (_analytics (self w)); reflexivity. Qed.

Lemma set_active_fields_tracked method extra w :
  set_active_fields (tracked method extra w) = [].
Proof. unfold tracked. destruct (_analytics (self w)); reflexivity. Qed.

(** After the request itself, [_updateCaptureType] sends nothing more. *)
Lemma set_active_fields_after captureType w :
  set_active_fields (updateCaptureType_after captureType w) = [].
Proof.
  unfold updateCaptureType_after.
  destruct (net w (tick w)); [|reflexivity].
  rewrite set_active_fields_app, set_active_fields_tracked.
  destruct (capturing_event captureType); reflexivity.
Qed.

(** The events of [_updateCaptureType]: the capturing event of the field
    when the request is acknowledged, nothing when it fails. *)
Lemma emitted_after captureType w :
  emitted (updateCaptureType_after captureType w) =
    match net w (tick w), capturing_event captureType with
    | Resolve _, Some event => [event]
    | _, _ => []
    end.
Proof.
  unfold updateCaptureType_after.
  destruct (net w (tick w)); [|reflexivity].
  rewrite emitted_app, emitted_tracked.
  destruct (capturing_event captureType); reflexivity.
Qed.

Lemma capturing_event_cases captureType event :
  capturing_event captureType = Some event ->
  event = "capturingCard" \/ event = "capturingSecurityCode"
  \/ event = "capturingDate".
Proof.
  unfold capturing_event. destruct captureType as [t|]; [|discriminate].
  repeat match goal with |- context [if ?b then _ else _] => destruct b end;
    intros [= <-]; auto.
Qed.

(** ** The progress check, case by case *)

Lemma js_includes_collection R F :
  is_collection R = true -> js_includes R F = Normal (member F R).
Proof. destruct R; try discriminate; reflexivity. Qed.

Lemma checkPayProgress_idle w :
  truthy (_capture (self w)) = false ->
  _checkPayProgress w = (Normal tt, w, []).
Proof.
  intros H. unfold _checkPayProgress, bind; cbn [get]. rewrite H. reflexivity.
Qed.

Lemma checkPayProgress_hold w :
  truthy (_capture (self w)) = true ->
  js_includes (_required (self w)) (head (_captureOrder (self w))) = Normal true ->
  _checkPayProgress w = (Normal tt, w, []).
Proof.
  intros Hc Hi. unfold _checkPayProgress, bind; cbn [get]. rewrite Hc.
  unfold lift. rewrite Hi. reflexivity.
Qed.

Lemma checkPayProgress_advance w :
  truthy (_capture (self w)) = true ->
  js_includes (_required (self w)) (head (_captureOrder (self w))) = Normal false ->
  js_nonempty (_required (self w)) = true ->
  let w1 := with_self (set_captureOrder (tail (_captureOrder (self w))) (self w)) w in
  let front := head (tail (_captureOrder (self w))) in
  _checkPayProgress w =
    (Normal tt, next w1,
     updateCaptureType_request front w1 :: updateCaptureType_after front w1).
Proof.
  intros Hc Hi Hn. unfold _checkPayProgress, bind; cbn [get]. rewrite Hc.
  unfold lift. rewrite Hi, Hn. cbn [modify].
  rewrite updateCaptureType_run. reflexivity.
Qed.

Lemma checkPayProgress_complete w :
  truthy (_capture (self w)) = true ->
  js_includes (_required (self w)) (head (_captureOrder (self w))) = Normal false ->
  js_nonempty (_required (self w)) = false ->
  _checkPayProgress w = (Normal tt, w, [Emit "captureComplete" NoArg]).
Proof.
  intros Hc Hi Hn. unfold _checkPayProgress, bind; cbn [get]. rewrite Hc.
  unfold lift. rewrite Hi, Hn. reflexivity.
Qed.

Lemma checkPayProgress_throw w e :
  truthy (_capture (self w)) = true ->
  js_includes (_required (self w)) (head (_captureOrder (self w))) = Throw e ->
  _checkPayProgress w = (Throw e, w, []).
Proof.
  intros Hc Hi. unfold _checkPayProgress, bind; cbn [get]. rewrite Hc.
  unfold lift. rewrite Hi. reflexivity.
Qed.

Lemma cons_neq_tail {A} (x : A) (l : list A) : x :: l <> l.
Proof. intros H. apply (f_equal length) in H. cbn in H. lia. Qed.

(** ** Progress-check determinism *)

Lemma prefix_append a b : String.prefix a (a ++ b) = true.
Proof.
  induction a as [|c a IH]; cbn; [destruct b; reflexivity|].
  destruct (ascii_dec c c); [exact IH|congruence].
Qed.

Lemma prefix_inv a s : String.prefix a s = true -> exists b, s = (a ++ b)%string.
Proof.
  revert s. induction a as [|c a IH]; intros s H; [exists s; reflexivity|].
  destruct s as [|d s]; [discriminate|]. cbn in H.
  destruct (ascii_dec c d) as [->|]; [|discriminate].
  destruct (IH s H) as [b ->]. exists b. reflexivity.
Qed.

Lemma str_includes_substring needle hay :
  str_includes needle hay = true
  <-> exists pre post, hay = (pre ++ needle ++ post)%string.
Proof.
  split.
  - induction hay as [|c hay IH]; cbn [str_includes]; intros H;
      apply orb_true_iff in H; destruct H as [H|H].
    + apply prefix_inv in H. destruct H as [b ->]. exists "", b. reflexivity.
    + discriminate.
    + apply prefix_inv in H. destruct H as [b ->]. exists "", b. reflexivity.
    + destruct (IH H) as (pre & post & ->). exists (String c pre), post. reflexivity.
  - intros (pre & post & ->). induction pre as [|c pre IH].
    + cbn [String.append]. destruct (needle ++ post)%string eqn:E;
        cbn [str_includes]; rewrite <- E, prefix_append; reflexivity.
    + cbn [String.append str_includes]. rewrite IH. apply orb_true_r.
Qed.

Lemma member_array F l : member (Some F) (JArr l) = true <-> JStr F ∈ l.
Proof.
  unfold member; cbn. induction l as [|y l IH]; cbn.
  - split; [discriminate|intros H; inversion H].
  - rewrite elem_of_cons, orb_true_iff, IH.
    assert (Hy : (match y with JStr g => F =? g | _ => false end) = true
                 <-> JStr F = y).
    { destruct y; try (split; [discriminate|intros [=]]).
      rewrite String.eqb_eq. split; [intros ->; reflexivity|intros [= ->]; reflexivity]. }
    rewrite Hy. reflexivity.
Qed.

Lemma occurs_in_empty F : occurs_in F "" <-> F = "".
Proof.
  split.
  - intros (pre & post & H). destruct pre; [|discriminate].
    destruct F; [reflexivity|discriminate].
  - intros ->. exists "", "". reflexivity.
Qed.

(** The three outcomes of the progress check in terms of the two tests the
    code makes, [includes] and [length > 0]. *)
Lemma checkPayProgress_by_tests (w : world) (F : string) (rest : list string) :
  let R := _required (self w) in
  truthy (_capture (self w)) = true ->
  _captureOrder (self w) = F :: rest ->
  is_collection R = true ->
  let r := _checkPayProgress w in
  let advances :=
    state_of r = set_captureOrder rest (self w)
    /\ set_active_fields (effects_of r) = [head rest] in
  let completes := "captureComplete" ∈ emitted (effects_of r) in
  let holds := state_of r = self w /\ effects_of r = [] in
  (advances <-> member (Some F) R = false /\ js_nonempty R = true)
  /\ (completes <-> member (Some F) R = false /\ js_nonempty R = false)
  /\ (holds <-> member (Some F) R = true).
Proof.
  intros R Hc Ho HR r advances completes holds.
  pose proof (js_includes_collection R (head (_captureOrder (self w))) HR) as Hi.
  rewrite Ho in Hi; cbn [head] in Hi.
  assert (Hfront : head (_captureOrder (self w)) = Some F) by (rewrite Ho; reflexivity).
  assert (Hstay : set_captureOrder rest (self w) <> self w).
  { intros E. apply (f_equal _captureOrder) in E. cbn in E.
    rewrite Ho in E. symmetry in E. exact (cons_neq_tail _ _ E). }
  destruct (member (Some F) R) eqn:Hm.
  - (* F is still required: hold *)
    assert (Hrun : r = (Normal tt, w, [])).
    { apply checkPayProgress_hold; [exact Hc|]. rewrite Hfront. exact Hi. }
    subst advances completes holds. rewrite Hrun. cbn.
    split; [|split].
    + split; [intros [_ H]|intros [H _]]; discriminate.
    + split; [intros H; inversion H|intros [H _]; discriminate].
    + split; [reflexivity|intros _; split; reflexivity].
  - destruct (js_nonempty R) eqn:Hn.
    + (* F done, more required: advance *)
      assert (Hrun := checkPayProgress_advance w Hc).
      rewrite Hfront in Hrun. specialize (Hrun Hi Hn). cbn zeta in Hrun.
      rewrite Ho in Hrun; cbn [tail] in Hrun. fold r in Hrun.
      assert (Hadv : advances).
      { subst advances. rewrite Hrun. split; [reflexivity|].
        unfold effects_of; cbn [snd].
        change (?x :: ?l) with ([x] ++ l).
        rewrite set_active_fields_app, set_active_fields_after. reflexivity. }
      assert (Hnc : ~ completes).
      { subst completes. rewrite Hrun. unfold effects_of; cbn [snd].
        change (?x :: ?l) with ([x] ++ l).
        rewrite emitted_app, emitted_after. cbn [emitted flat_map app].
        destruct (net _ _); [|inversion 1].
        destruct (capturing_event (head rest)) as [event|] eqn:E; [|inversion 1].
        intros H. apply list_elem_of_singleton in H. subst event.
        apply capturing_event_cases in E. destruct E as [E|[E|E]]; discriminate. }
      split; [|split].
      * split; [intros _; split; reflexivity|intros _; exact Hadv].
      * split; [intros H; contradiction|intros [_ H]; discriminate].
      * split; [|discriminate]. subst holds. rewrite Hrun.
        unfold effects_of; cbn [snd]. intros [_ H]. discriminate.
    + (* nothing more required: complete *)
      assert (Hrun : r = (Normal tt, w, [Emit "captureComplete" NoArg])).
      { apply checkPayProgress_complete; [exact Hc| |exact Hn].
        rewrite Hfront. exact Hi. }
      assert (Hcomp : completes).
      { subst completes. rewrite Hrun. cbn. apply list_elem_of_singleton. reflexivity. }
      split; [|split].
      * split; [intros [Hs _]|intros [_ H]; discriminate].
        rewrite Hrun in Hs. exfalso. apply Hstay. symmetry. exact Hs.
      * split; [intros _; split; reflexivity|intros _; exact Hcomp].
      * split; [|discriminate]. subst holds. rewrite Hrun.
        unfold effects_of; cbn [snd]. intros [_ H]. discriminate.
Qed.

(** C4, as amended.  While capture is in progress, with active field [F]
    at the front of the working order, the progress check does exactly
    one of three things: it advances (the order loses [F], nothing else
    changes, one [updateCaptureType] request for the new front is
    issued), it emits [captureComplete], or it holds (no state change, no
    effect).  For a required set delivered as an array [l]: it advances
    iff [F] is not an element of [l] and [l] is not empty, it completes
    iff [l] is empty, it holds iff [F] is an element of [l].  For a
    required set delivered as a string [s], [F] counts as required when it
    occurs in [s] as a substring: it advances iff [F] does not occur in
    [s] and [s] is not empty, it completes iff [s] is empty and [F] is not
    the empty name, it holds iff [F] occurs in [s]. *)
Theorem checkPayProgress_determinism (w : world) (F : string) (rest : list string) :
  truthy (_capture (self w)) = true ->
  _captureOrder (self w) = F :: rest ->
  let r := _checkPayProgress w in
  let advances :=
    state_of r = set_captureOrder rest (self w)
    /\ set_active_fields (effects_of r) = [head rest] in
  let completes := "captureComplete" ∈ emitted (effects_of r) in
  let holds := state_of r = self w /\ effects_of r = [] in
  (forall l : list jsval, _required (self w) = JArr l ->
     (advances <-> (JStr F ∉ l) /\ l <> [])
     /\ (completes <-> l = [])
     /\ (holds <-> JStr F ∈ l))
  /\ (forall s : string, _required (self w) = JStr s ->
      (advances <-> ~ occurs_in F s /\ s <> "")
      /\ (completes <-> s = "" /\ F <> "")
      /\ (holds <-> occurs_in F s)).
Proof.
  intros Hc Ho r advances completes holds. split.
  - intros l HR.
    assert (HRc : is_collection (_required (self w)) = true) by (rewrite HR; reflexivity).
    destruct (checkPayProgress_by_tests w F rest Hc Ho HRc) as (Ha & Hco & Hh).
    fold r in Ha, Hco, Hh. rewrite HR in Ha, Hco, Hh.
    assert (Hmem : member (Some F) (JArr l) = false <-> JStr F ∉ l).
    { rewrite <- member_array. symmetry. apply not_true_iff_false. }
    assert (Hne : js_nonempty (JArr l) = true <-> l <> []).
    { destruct l; cbn; split; congruence. }
    assert (He : js_nonempty (JArr l) = false <-> l = []).
    { destruct l; cbn; split; congruence. }
    split; [|split].
    + fold advances in Ha. rewrite Ha, Hmem, Hne. reflexivity.
    + fold completes in Hco. rewrite Hco, Hmem, He. split; [intros [_ H]; exact H|].
      intros ->. split; [apply not_elem_of_nil|reflexivity].
    + fold holds in Hh. rewrite Hh. apply member_array.
  - intros s HR.
    assert (HRc : is_collection (_required (self w)) = true) by (rewrite HR; reflexivity).
    destruct (checkPayProgress_by_tests w F rest Hc Ho HRc) as (Ha & Hco & Hh).
    fold r in Ha, Hco, Hh. rewrite HR in Ha, Hco, Hh.
    assert (Hin : member (Some F) (JStr s) = true <-> occurs_in F s).
    { unfold member, occurs_in; cbn. apply str_includes_substring. }
    assert (Hmem : member (Some F) (JStr s) = false <-> ~ occurs_in F s).
    { rewrite <- Hin. symmetry. apply not_true_iff_false. }
    assert (Hne : js_nonempty (JStr s) = true <-> s <> "").
    { destruct s; cbn; split; congruence. }
    assert (He : js_nonempty (JStr s) = false <-> s = "").
    { destruct s; cbn; split; congruence. }
    split; [|split].
    + fold advances in Ha. rewrite Ha, Hmem, Hne. reflexivity.
    + fold completes in Hco. rewrite Hco, Hmem, He. split.
      * intros [Hn ->]. split; [reflexivity|].
        intros ->. apply Hn. apply occurs_in_empty. reflexivity.
      * intros [-> HF]. split; [|reflexivity].
        intros H. apply occurs_in_empty in H. contradiction.
    + fold holds in Hh. rewrite Hh. exact Hin.
Qed.

Lemma checkPayProgress_determinism_witness :
  truthy (_capture (self w_date_up)) = true
  /\ _captureOrder (self w_date_up) = "expiration-date" :: []
  /\ _required (self w_date_up) = JArr [JStr "expiration-date"]
  /\ state_of (_checkPayProgress w_date_up) = self w_date_up
  /\ effects_of (_checkPayProgress w_date_up) = [].
Proof.
  do 3 (split; [reflexivity|]).
  destruct (checkPayProgress_determinism w_date_up "expiration-date" []
              eq_refl eq_refl) as (Harr & _).
  destruct (Harr [JStr "expiration-date"] eq_refl) as (_ & _ & Hhold).
  apply Hhold. apply list_elem_of_here.
Defined.

(** C4 fails as stated.  The capture order "" makes the constructor build
    the one-field order [[""]]; with capture on and the empty string as
    required set (the value the constructor itself gives [_required]), the
    required set is empty and yet the check holds: [captureComplete] is
    not emitted.  And with active field [code] and required set
    [security-code], the field is not one of the required fields, the set
    is not empty, and yet the check holds instead of advancing. *)
Lemma empty_required_without_completion :
  (exists c, fresh_client "" = Normal c
             /\ _captureOrder c = [""] /\ _required c = JStr "")
  /\ truthy (_capture (self w_empty_name)) = true
  /\ _captureOrder (self w_empty_name) = [""]
  /\ _required (self w_empty_name) = JStr ""
  /\ _checkPayProgress w_empty_name = (Normal tt, w_empty_name, [])
  /\ ("captureComplete" ∉ emitted (effects_of (_checkPayProgress w_empty_name)))
  /\ _captureOrder (self w_code_field) = ["code"]
  /\ _required (self w_code_field) = JStr "security-code"
  /\ _checkPayProgress w_code_field = (Normal tt, w_code_field, []).
Proof.
  split; [eexists; split; [vm_compute; reflexivity|split; reflexivity]|].
  do 3 (split; [reflexivity|]).
  split; [vm_compute; reflexivity|].
  split; [vm_compute; apply not_elem_of_nil|].
  do 2 (split; [reflexivity|]).
  vm_compute; reflexivity.
Qed.

(** ** Runs of the methods *)

Lemma changeSession_run changeType w :
  _changeSession changeType w =
    (Normal tt, next (reset_order w),
     changeSession_request changeType (reset_order w)
       :: logged "_changeSession" (net w (tick w))).
Proof.
  unfold _changeSession, changeSession_request, reset_order, with_self.
  unfold bind at 1; cbn [modify].
  unfold bind at 1 2; cbn [get date_now].
  unfold try_catch, bind, await; cbn [tick net self clock].
  destruct (net w (tick w)); reflexivity.
Qed.

Lemma startCapture_run w :
  startCapture w =
    let w1 := reset_order w in
    match net w (tick w) with
    | Resolve v =>
        let w2 := with_self (set_paySid v (self w1)) (next w1) in
        let front := head (_captureOrderTemplate (self w)) in
        (Normal tt, next w2,
         startCapture_request w1 :: Emit "capturing" NoArg
           :: updateCaptureType_request front w2
           :: updateCaptureType_after front w2
           ++ tracked "startCapture" None (next w2))
    | Reject e =>
        (Normal tt, next w1, [startCapture_request w1; LogError "startCapture" e])
    end.
Proof.
  unfold startCapture, startCapture_request, reset_order, with_self.
  unfold bind at 1; cbn [modify].
  unfold bind at 1 2; cbn [get date_now].
  unfold try_catch, bind at 1, await; cbn [tick net self clock].
  destruct (net w (tick w)) as [v|e]; [|reflexivity].
  unfold bind; cbn [modify emit perform get self next tick net clock].
  rewrite updateCaptureType_run, track_run. reflexivity.
Qed.

Lemma submitCapture_run w :
  submitCapture w =
    let w1 := next (reset_order w) in
    (Normal tt, w1,
     changeSession_request "complete" (reset_order w)
       :: logged "_changeSession" (net w (tick w))
       ++ Emit "submitComplete" NoArg :: tracked "submitCapture" None w1).
Proof.
  unfold submitCapture, bind. rewrite changeSession_run.
  cbn [emit perform]. rewrite track_run. cbn zeta.
  rewrite <- app_comm_cons. reflexivity.
Qed.

(** [cancelCapture] never changes the object beyond the reset made by
    [_changeSession], and always completes normally. *)
Lemma cancelCapture_state w :
  result_of (cancelCapture w) = Normal tt
  /\ state_of (cancelCapture w) = self (reset_order w).
Proof.
  unfold cancelCapture, bind. rewrite changeSession_run.
  destruct w as [c k n cl]. unfold result_of, state_of, reset_order.
  js_run. destruct (_payMap c); js_run; [|split; reflexivity].
  destruct (n (S k)); js_run; [|split; reflexivity].
  destruct (_analytics c); split; reflexivity.
Qed.

Lemma reset_field_run field event method w :
  reset_field field event method w =
    let o := _captureOrder (self w) in
    let w1 := with_self (set_captureOrder (prepend field o) (self w)) w in
    (Normal tt, next w1,
     (if front_is field o then [] else [Emit event NoArg])
       ++ tracked method None w1
       ++ updateCaptureType_request (head (prepend field o)) w1
       :: updateCaptureType_after (head (prepend field o)) w1).
Proof.
  unfold reset_field, prepend. unfold bind at 1; cbn [get].
  destruct w as [c k n cl]; cbn [self].
  destruct (front_is field (_captureOrder c)) eqn:E.
  - unfold bind; cbn [ret]. rewrite track_run. cbn [get self].
    rewrite updateCaptureType_run. cbn zeta.
    destruct c; reflexivity.
  - unfold bind; cbn [modify emit perform self tick net clock].
    rewrite track_run. cbn [get self]. rewrite updateCaptureType_run.
    reflexivity.
Qed.

Lemma payMap_itemUpdated_run args w :
  payMap_itemUpdated args w =
    let '(r, w', t) := _checkPayProgress (with_self (apply_item args (self w)) w) in
    (r, w', Emit "cardUpdate" (Data (data args)) :: t).
Proof.
  unfold payMap_itemUpdated, apply_item, with_self.
  unfold bind; cbn [modify emit perform self tick net clock].
  destruct (_checkPayProgress _) as [[r w'] t]. reflexivity.
Qed.

(** The progress check changes nothing but the working order, which it
    either keeps or replaces by its tail. *)
Lemma checkPayProgress_state w :
  state_of (_checkPayProgress w) = self w
  \/ state_of (_checkPayProgress w)
     = set_captureOrder (tail (_captureOrder (self w))) (self w).
Proof.
  destruct (truthy (_capture (self w))) eqn:Hc.
  - destruct (js_includes (_required (self w)) (head (_captureOrder (self w))))
      as [[|]|e] eqn:Hi.
    + rewrite checkPayProgress_hold by assumption. left; reflexivity.
    + destruct (js_nonempty (_required (self w))) eqn:Hn.
      * rewrite checkPayProgress_advance by assumption. right; reflexivity.
      * rewrite checkPayProgress_complete by assumption. left; reflexivity.
    + rewrite (checkPayProgress_throw w e) by assumption. left; reflexivity.
  - rewrite checkPayProgress_idle by assumption. left; reflexivity.
Qed.

(** ** Notifications and the session id *)

Lemma apply_item_set_paySid args sid c :
  apply_item args (set_paySid sid c) = apply_item args c.
Proof. destruct c; reflexivity. Qed.

(** C1, as amended.  The [itemUpdated] listener applies every notification,
    whatever its key: the key becomes the stored session id, the capture
    flag, the partial result and the required set are replaced by the
    notification's, [cardUpdate] is emitted with the raw data, and the
    progress check then runs on the updated object.  The session id held
    before the notification has no influence on the outcome. *)
Theorem itemUpdated_applies_any_key (args : item) (w : world) :
  let r := payMap_itemUpdated args w in
  let w1 := with_self (apply_item args (self w)) w in
  _paySid (state_of r) = JStr (key args)
  /\ _capture (state_of r) = Capture (data args)
  /\ _partialResult (state_of r) = PartialResult (data args)
  /\ _required (state_of r) = Required (data args)
  /\ effects_of r
     = Emit "cardUpdate" (Data (data args)) :: effects_of (_checkPayProgress w1)
  /\ result_of r = result_of (_checkPayProgress w1)
  /\ forall sid : jsval,
       payMap_itemUpdated args (with_self (set_paySid sid (self w)) w) = r.
Proof.
  intros r w1. subst r. rewrite payMap_itemUpdated_run. fold w1.
  pose proof (checkPayProgress_state w1) as Hs.
  destruct (_checkPayProgress w1) as [[res w'] t] eqn:E.
  unfold state_of, effects_of, result_of in *; cbn [fst snd] in *.
  assert (Hfields :
    _paySid (self w') = JStr (key args)
    /\ _capture (self w') = Capture (data args)
    /\ _partialResult (self w') = PartialResult (data args)
    /\ _required (self w') = Required (data args)).
  { destruct Hs as [-> | ->]; subst w1; cbn; repeat split; reflexivity. }
  destruct Hfields as (H1 & H2 & H3 & H4).
  repeat split; try assumption.
  intros sid. rewrite payMap_itemUpdated_run.
  change (with_self _ (with_self (set_paySid sid (self w)) w))
    with (with_self (apply_item args (set_paySid sid (self w))) w).
  rewrite apply_item_set_paySid.
  change (with_self (apply_item args (self w)) w) with w1.
  rewrite E. reflexivity.
Qed.

(** C1 fails as stated: a notification for another session overwrites the
    stored session id and the snapshot, emits events and advances the
    order with a remote command. *)
Lemma stale_notification_is_applied :
  JStr (key stale_item) <> _paySid (self w_start_up)
  /\ state_of (payMap_itemUpdated stale_item w_start_up) <> self w_start_up
  /\ _paySid (state_of (payMap_itemUpdated stale_item w_start_up))
     = JStr "PK-stale"
  /\ _captureOrder (state_of (payMap_itemUpdated stale_item w_start_up))
     = ["security-code"; "expiration-date"]
  /\ emitted (effects_of (payMap_itemUpdated stale_item w_start_up))
     = ["cardUpdate"; "capturingSecurityCode"]
  /\ set_active_fields (effects_of (payMap_itemUpdated stale_item w_start_up))
     = [Some "security-code"].
Proof.
  repeat split; try reflexivity; discriminate.
Qed.

(** ** Failure of the remote call *)

Lemma set_captureOrder_same c : set_captureOrder (_captureOrder c) c = c.
Proof. destruct c; reflexivity. Qed.

(** The events of [startCapture]: [capturing] once the start request is
    answered, then the capturing event of the template's first field once
    the [updateCaptureType] request is acknowledged. *)
Lemma startCapture_emitted w :
  emitted (effects_of (startCapture w))
  = match net w (tick w) with
    | Resolve _ =>
        "capturing"
        :: match net w (S (tick w)),
                 capturing_event (head (_captureOrderTemplate (self w))) with
           | Resolve _, Some event => [event]
           | _, _ => []
           end
    | Reject _ => []
    end.
Proof.
  rewrite startCapture_run. cbv zeta. unfold effects_of.
  destruct (net w (tick w)) as [v|e]; [|reflexivity]. cbn [snd].
  change (?a :: ?b :: ?x :: ?l ++ ?t) with ([a; b; x] ++ l ++ t).
  rewrite !emitted_app, emitted_after, emitted_tracked, app_nil_r.
  reflexivity.
Qed.

(** C2, as amended.  Every public command that issues remote calls
    completes normally whatever those calls do.  When the request the
    command itself sends (the start request of [startCapture], the
    change-status request of [submitCapture] and [cancelCapture], the
    [updateCaptureType] request of the reset methods) raises, and for the
    commands other than [startCapture] whichever of their remote calls
    raises, the stored session id and every other field except the
    working order are what they were; the working order is the one the
    command installs before it issues the call: the template for
    [startCapture], [submitCapture] and [cancelCapture], the order with
    the field prepended for the reset methods.  When the start request of
    [startCapture] is answered and its following [updateCaptureType]
    request raises, the answer has already been stored as the session id
    and [capturing] emitted: the state is the one above with that session
    id, and no capturing event for a field is emitted. *)
Theorem remote_failure_keeps_session (cmd : command) (w : world) :
  result_of (exec cmd w) = Normal tt
  /\ (cmd <> CStartCapture \/ (exists e, net w (tick w) = Reject e) ->
      state_of (exec cmd w)
      = set_captureOrder (order_at_call cmd (self w)) (self w)
      /\ _paySid (state_of (exec cmd w)) = _paySid (self w))
  /\ (forall v e,
        cmd = CStartCapture ->
        net w (tick w) = Resolve v ->
        net w (S (tick w)) = Reject e ->
        state_of (exec cmd w)
        = set_paySid v (set_captureOrder (order_at_call cmd (self w)) (self w))
        /\ _paySid (state_of (exec cmd w)) = v
        /\ emitted (effects_of (exec cmd w)) = ["capturing"]).
Proof.
  split; [|split].
  - destruct cmd; cbn [exec].
    + rewrite startCapture_run. cbv zeta. destruct (net w (tick w)); reflexivity.
    + rewrite submitCapture_run. reflexivity.
    + apply cancelCapture_state.
    + unfold resetCard. rewrite reset_field_run. reflexivity.
    + unfold resetSecurityCode. rewrite reset_field_run. reflexivity.
    + unfold resetDate. rewrite reset_field_run. reflexivity.
  - intros H.
    assert (Hs : state_of (exec cmd w)
                 = set_captureOrder (order_at_call cmd (self w)) (self w)).
    { destruct cmd; cbn [exec order_at_call].
      - destruct H as [H|[e He]]; [congruence|].
        rewrite startCapture_run, He. reflexivity.
      - rewrite submitCapture_run. reflexivity.
      - apply cancelCapture_state.
      - unfold resetCard. rewrite reset_field_run. reflexivity.
      - unfold resetSecurityCode. rewrite reset_field_run. reflexivity.
      - unfold resetDate. rewrite reset_field_run. reflexivity. }
    split; [exact Hs|]. rewrite Hs. reflexivity.
  - intros v e -> Hv He. cbn [exec order_at_call].
    split; [|split].
    + rewrite startCapture_run, Hv. reflexivity.
    + rewrite startCapture_run, Hv. reflexivity.
    + rewrite startCapture_emitted, Hv, He. reflexivity.
Qed.

Lemma remote_failure_keeps_session_witness :
  (exists e, net w_date_down (tick w_date_down) = Reject e)
  /\ _paySid (state_of (exec CStartCapture w_date_down))
     = _paySid (self w_date_down)
  /\ net w_date_second_down (tick w_date_second_down) = Resolve (JStr "PK2")
  /\ net w_date_second_down (S (tick w_date_second_down))
     = Reject (Rejected "Network Error")
  /\ _paySid (state_of (exec CStartCapture w_date_second_down)) = JStr "PK2"
  /\ emitted (effects_of (exec CStartCapture w_date_second_down)) = ["capturing"].
Proof.
  assert (H1 : exists e, net w_date_down (tick w_date_down) = Reject e).
  { eexists. reflexivity. }
  split; [exact H1|].
  destruct (remote_failure_keeps_session CStartCapture w_date_down)
    as (_ & Hfirst & _).
  destruct (Hfirst (or_intror H1)) as [_ Hsid].
  split; [exact Hsid|].
  do 2 (split; [reflexivity|]).
  destruct (remote_failure_keeps_session CStartCapture w_date_second_down)
    as (_ & _ & Hsecond).
  destruct (Hsecond (JStr "PK2") (Rejected "Network Error") eq_refl eq_refl eq_refl)
    as (_ & Hsid2 & Hem).
  split; [exact Hsid2|exact Hem].
Defined.

(** C2 fails as stated: [startCapture] resets the working order before it
    issues the request, so a failed request leaves an order that differs
    from the one before the command. *)
Lemma startCapture_failure_changes_order :
  net w_date_down (tick w_date_down) = Reject (Rejected "Network Error")
  /\ _captureOrder (self w_date_down) = ["expiration-date"]
  /\ _captureOrder (state_of (startCapture w_date_down))
     = ["payment-card-number"; "security-code"; "expiration-date"]
  /\ state_of (startCapture w_date_down) <> self w_date_down.
Proof.
  repeat split; try reflexivity. discriminate.
Qed.

(** ** submitCapture *)

Lemma status_changes_app t1 t2 :
  status_changes (t1 ++ t2) = status_changes t1 ++ status_changes t2.
Proof. unfold status_changes. apply flat_map_app. Qed.

Lemma status_changes_tracked method extra w :
  status_changes (tracked method extra w) = [].
Proof. unfold tracked. destruct (_analytics (self w)); reflexivity. Qed.

Lemma status_changes_logged method r : status_changes (logged method r) = [].
Proof. destruct r; reflexivity. Qed.

Lemma emitted_logged method r : emitted (logged method r) = [].
Proof. destruct r; reflexivity. Qed.

(** C3, as amended.  In every state [submitCapture] issues exactly one
    [changeSession] request, with status [complete], emits
    [submitComplete] and nothing else, and resets the working order to the
    template, leaving every other field as it was. *)
Theorem submitCapture_resets_order (w : world) :
  status_changes (effects_of (submitCapture w)) = ["complete"]
  /\ emitted (effects_of (submitCapture w)) = ["submitComplete"]
  /\ state_of (submitCapture w)
     = set_captureOrder (_captureOrderTemplate (self w)) (self w)
  /\ result_of (submitCapture w) = Normal tt.
Proof.
  rewrite submitCapture_run. unfold effects_of, state_of, result_of.
  cbn [fst snd]. repeat split.
  - change (?x :: ?l ++ ?y :: ?t) with ([x] ++ l ++ [y] ++ t).
    rewrite !status_changes_app, status_changes_logged, status_changes_tracked.
    reflexivity.
  - change (?x :: ?l ++ ?y :: ?t) with ([x] ++ l ++ [y] ++ t).
    rewrite !emitted_app, emitted_logged, emitted_tracked.
    reflexivity.
Qed.

(** C3 fails as stated: with one field left, [submitCapture] puts the
    whole template back into the working order. *)
Lemma submitCapture_changes_order :
  _captureOrder (self w_date_up) = ["expiration-date"]
  /\ _captureOrder (state_of (submitCapture w_date_up))
     = ["payment-card-number"; "security-code"; "expiration-date"]
  /\ _captureOrder (state_of (submitCapture w_date_up))
     <> _captureOrder (self w_date_up).
Proof.
  repeat split; try reflexivity. discriminate.
Qed.

(** ** resetCard on the active field *)

Lemma front_is_head field o :
  front_is field o = true <-> head o = Some field.
Proof.
  unfold front_is. destruct o as [|f o]; cbn.
  - split; discriminate.
  - rewrite String.eqb_eq. split; [intros ->; reflexivity|intros [= ->]; reflexivity].
Qed.

Lemma prepend_front field o : head o = Some field -> prepend field o = o.
Proof. intros H. unfold prepend. apply front_is_head in H. rewrite H. reflexivity. Qed.

(** C7.  When [payment-card-number] is already at the front of the working
    order, [resetCard] leaves the whole object (the order included) as it
    was, emits no [cardReset], and still issues one [updateCaptureType]
    request, for [payment-card-number]. *)
Theorem resetCard_at_front (w : world) :
  head (_captureOrder (self w)) = Some "payment-card-number" ->
  state_of (resetCard w) = self w
  /\ ("cardReset" ∉ emitted (effects_of (resetCard w)))
  /\ set_active_fields (effects_of (resetCard w)) = [Some "payment-card-number"].
Proof.
  intros H. unfold resetCard. rewrite reset_field_run. cbv zeta.
  rewrite (prepend_front _ _ H), H.
  apply front_is_head in H. rewrite H.
  unfold state_of, effects_of; cbn [fst snd self next with_self].
  rewrite set_captureOrder_same. repeat split.
  - change (?x :: ?l) with ([x] ++ l).
    rewrite !emitted_app, emitted_tracked, emitted_after. cbn.
    destruct (net w (tick w)); [|inversion 1].
    intros Hin. apply list_elem_of_singleton in Hin. discriminate.
  - change (?x :: ?l) with ([x] ++ l).
    rewrite !set_active_fields_app, set_active_fields_tracked,
      set_active_fields_after.
    reflexivity.
Qed.

Lemma resetCard_at_front_witness :
  head (_captureOrder (self w_start_up)) = Some "payment-card-number"
  /\ state_of (resetCard w_start_up) = self w_start_up
  /\ ("cardReset" ∉ emitted (effects_of (resetCard w_start_up)))
  /\ set_active_fields (effects_of (resetCard w_start_up))
     = [Some "payment-card-number"].
Proof.
  split; [reflexivity|]. exact (resetCard_at_front w_start_up eq_refl).
Defined.

(** ** startCapture *)

Lemma NoDup_sample_template : NoDup sample_template.
Proof. unfold sample_template. nodup_literals. Qed.

(** C6, as amended.  For a non-empty template [t :: T'], [startCapture]
    leaves the working order equal to the template; when the start request
    is acknowledged it issues exactly one [updateCaptureType] request, for
    [t]; when the start request fails it issues none. *)
Theorem startCapture_order_and_field (w : world) (t : string) (T' : list string) :
  _captureOrderTemplate (self w) = t :: T' ->
  _captureOrder (state_of (startCapture w)) = t :: T'
  /\ set_active_fields (effects_of (startCapture w))
     = match net w (tick w) with
       | Resolve _ => [Some t]
       | Reject _ => []
       end.
Proof.
  intros HT. rewrite startCapture_run. cbv zeta.
  destruct (net w (tick w)) as [v|e];
    unfold state_of, effects_of; cbn [fst snd self next with_self reset_order].
  - split; [exact HT|]. rewrite HT. cbn [head].
    change (?a :: ?b :: ?x :: ?l ++ ?t) with ([a; b] ++ [x] ++ l ++ t).
    rewrite !set_active_fields_app, set_active_fields_tracked,
      set_active_fields_after.
    reflexivity.
  - split; [exact HT|reflexivity].
Qed.

Lemma startCapture_order_and_field_witness :
  _captureOrderTemplate (self w_date_up)
    = "payment-card-number" :: ["security-code"; "expiration-date"]
  /\ _captureOrder (state_of (startCapture w_date_up))
     = "payment-card-number" :: ["security-code"; "expiration-date"]
  /\ set_active_fields (effects_of (startCapture w_date_up))
     = match net w_date_up (tick w_date_up) with
       | Resolve _ => [Some "payment-card-number"]
       | Reject _ => []
       end.
Proof.
  split; [reflexivity|].
  exact (startCapture_order_and_field w_date_up "payment-card-number"
           ["security-code"; "expiration-date"] eq_refl).
Defined.

(** C6 fails as stated: the template is non-empty and duplicate-free, the
    start request fails, and no [updateCaptureType] request is issued. *)
Lemma startCapture_failure_sets_no_field :
  _captureOrderTemplate (self w_start_down)
    = ["payment-card-number"; "security-code"; "expiration-date"]
  /\ NoDup (_captureOrderTemplate (self w_start_down))
  /\ _captureOrder (state_of (startCapture w_start_down))
     = _captureOrderTemplate (self w_start_down)
  /\ set_active_fields (effects_of (startCapture w_start_down)) = []
  /\ set_active_fields (effects_of (startCapture w_start_down))
     <> [Some "payment-card-number"].
Proof.
  repeat split; try reflexivity; try discriminate.
  exact NoDup_sample_template.
Qed.

(** ** The working order under its three operations *)




Lemma reset_field_order field event method w :
  _captureOrder (state_of (reset_field field event method w))
  = prepend field (_captureOrder (self w)).
Proof. rewrite reset_field_run. reflexivity. Qed.




(** ** attachPay when the pay map cannot be opened *)

(** C8, as amended.  When the Sync client is created and opening the pay
    map fails, [attachPay] catches the error and logs it: the call
    completes normally (the error does not reach the caller), the pay-map
    handle is what it was, no listener is registered and no event is
    emitted; the call id and the status callback were stored before the
    attempt. *)
Theorem attachPay_subscription_failure (sid v : jsval) (e : error) (w : world) :
  net w (tick w) = Resolve v ->
  net w (S (tick w)) = Reject e ->
  result_of (attachPay sid w) = Normal tt
  /\ _payMap (state_of (attachPay sid w)) = _payMap (self w)
  /\ attached (state_of (attachPay sid w)) = attached (self w)
  /\ emitted (effects_of (attachPay sid w)) = []
  /\ (MapOn "payMap" "itemUpdated" ∉ effects_of (attachPay sid w))
  /\ (LogError "attachPay" e ∈ effects_of (attachPay sid w))
  /\ callSid (state_of (attachPay sid w)) = callSid_argument sid
  /\ _statusCallback (state_of (attachPay sid w))
     = (functionsURL (self w) ++ "/paySyncUpdate")%string.
Proof.
  intros H0 H1. destruct w as [c k n cl]. cbn [self tick net] in *.
  unfold attachPay, result_of, state_of, effects_of, attached.
  js_run.
  destruct (_analytics c); js_run; rewrite H0; js_run; rewrite H1; js_run.
  all: do 4 (split; [reflexivity|]).
  all: split; [rewrite !not_elem_of_cons; repeat split; try discriminate;
               apply not_elem_of_nil|].
  all: split; [rewrite !elem_of_cons; auto 6|].
  all: split; reflexivity.
Qed.

Lemma attachPay_subscription_failure_witness :
  net w_new_no_map (tick w_new_no_map) = Resolve JUndefined
  /\ net w_new_no_map (S (tick w_new_no_map))
     = Reject (Rejected "Sync map unavailable")
  /\ result_of (attachPay (JStr "CA1") w_new_no_map) = Normal tt
  /\ attached (state_of (attachPay (JStr "CA1") w_new_no_map))
     = attached (self w_new_no_map).
Proof.
  split; [reflexivity|]. split; [reflexivity|].
  destruct (attachPay_subscription_failure (JStr "CA1") JUndefined
              (Rejected "Sync map unavailable") w_new_no_map
              eq_refl eq_refl) as (H1 & _ & H3 & _).
  split; assumption.
Defined.

Lemma new_client_constructed :
  fresh_client "payment-card-number, security-code, expiration-date"
  = Normal new_client.
Proof. reflexivity. Qed.

(** C8 fails as stated: on a freshly constructed client whose pay map
    cannot be opened, [attachPay] completes normally instead of raising
    the subscription error, and the call id has been stored. *)
Lemma attachPay_swallows_subscription_error :
  net w_new_no_map 1 = Reject (Rejected "Sync map unavailable")
  /\ result_of (attachPay (JStr "CA1") w_new_no_map) = Normal tt
  /\ (forall e, result_of (attachPay (JStr "CA1") w_new_no_map) <> Throw e)
  /\ callSid (self w_new_no_map) = JNull
  /\ callSid (state_of (attachPay (JStr "CA1") w_new_no_map)) = JStr "CA1".
Proof.
  repeat split; try reflexivity. intros e. discriminate.
Qed.

(** ** The front of an empty order *)

(** C9.  A state reachable through the public interface: a client is
    constructed with the capture order ["payment-card-number"], attached
    and started, so capture is in progress with exactly one field in the
    working order.  A notification then arrives whose required set is not
    empty and does not contain that field.  The progress check removes the
    last element, the working order is empty, and an [updateCaptureType]
    request is still issued, with [undefined] as its field; the only event
    emitted is [cardUpdate]: no capturing event for a field. *)
Theorem front_of_empty_order_reachable :
  exists w1 : world,
    fresh_client "payment-card-number" = Normal card_only_client
    /\ (attach_and_start (sample_world card_only_client net_up)).1
       = (Normal tt, w1)
    /\ _captureOrder (self w1) = ["payment-card-number"]
    /\ attached (self w1) = true
    /\ truthy (Capture (data more_required_item)) = true
    /\ js_nonempty (Required (data more_required_item)) = true
    /\ member (Some "payment-card-number") (Required (data more_required_item))
       = false
    /\ result_of (notify more_required_item w1) = Normal tt
    /\ _captureOrder (state_of (notify more_required_item w1)) = []
    /\ set_active_fields (effects_of (notify more_required_item w1)) = [None]
    /\ emitted (effects_of (notify more_required_item w1)) = ["cardUpdate"].
Proof.
  exists (attach_and_start (sample_world card_only_client net_up)).1.2.
  do 10 (split; [vm_compute; reflexivity|]).
  vm_compute; reflexivity.
Qed.

(** ** The constructor *)

(** C10.  The constructor builds the template from a string capture order
    by splitting on commas and trimming; for every capture order that is
    not a string it throws a TypeError and no object exists.  The
    constructor's own default, a one-element array, is such a value, so
    construction fails both when the default array is passed and when the
    argument is left out. *)
Theorem constructor_requires_string_order
    (url ident token connector : string) (cur tok : option string) (key : jsval) :
  (forall v : jsval, (forall s, v <> JStr s) ->
     exists msg, constructor url ident token connector v cur tok key
                 = Throw (TypeError msg))
  /\ (exists msg, constructor url ident token connector default_captureOrder
                    cur tok key = Throw (TypeError msg))
  /\ (exists msg, constructor url ident token connector JUndefined
                    cur tok key = Throw (TypeError msg))
  /\ (forall s : string,
        exists c, constructor url ident token connector (JStr s) cur tok key
                  = Normal c
                  /\ _captureOrderTemplate c = List.map trim (split_comma s)
                  /\ _captureOrder c = _captureOrderTemplate c).
Proof.
  split; [|split; [|split]].
  - intros v Hv. destruct v; cbn; eauto. destruct (Hv s eq_refl).
  - eexists; reflexivity.
  - eexists; reflexivity.
  - intros s. eexists. cbn. repeat split; reflexivity.
Qed.

Lemma constructor_requires_string_order_witness :
  (forall s, default_captureOrder <> JStr s)
  /\ exists msg,
       constructor "https://pay.example" "agent" "token" "connector"
         default_captureOrder None None JNull = Throw (TypeError msg).
Proof.
  assert (H : forall s, default_captureOrder <> JStr s) by (intros s; discriminate).
  split; [exact H|].
  destruct (constructor_requires_string_order "https://pay.example" "agent"
              "token" "connector" None None JNull) as (Hall & _).
  exact (Hall default_captureOrder H).
Defined.

(** ** The scenarios of the interface, run on the model *)

(** Three-field template: start, then a notification that still requires
    the security code and the date, then, once the request it caused has
    been answered, one that requires nothing. *)
Example scenario_capture_three_fields :
  let run :=
    attachPay (JStr "CA1");; startCapture;;
    notify (Item "PK2" (ItemData (JBool true) (JBool true)
              (JArr [JStr "security-code"; JStr "expiration-date"])));;
    notify (Item "PK2" (ItemData (JBool true) (JBool false) (JArr []))) in
  emitted (effects_of (run (sample_world new_client net_up)))
  = ["callConnected"; "capturing"; "capturingCard"; "cardUpdate";
     "capturingSecurityCode"; "cardUpdate"; "captureComplete"]
  /\ _captureOrder (state_of (run (sample_world new_client net_up)))
     = ["security-code"; "expiration-date"].
Proof. split; vm_compute; reflexivity. Qed.

(** [resetSecurityCode] while only the date is left. *)
Example scenario_reset_security_code :
  _captureOrder (state_of (resetSecurityCode w_date_up))
  = ["security-code"; "expiration-date"]
  /\ emitted (effects_of (resetSecurityCode w_date_up))
     = ["securityCodeReset"; "capturingSecurityCode"]
  /\ set_active_fields (effects_of (resetSecurityCode w_date_up))
     = [Some "security-code"].
Proof. do 2 (split; [vm_compute; reflexivity|]). vm_compute; reflexivity. Qed.

(** [cancelCapture] while capturing, then [startCapture] again. *)
Example scenario_cancel_then_start :
  emitted (effects_of (cancelCapture w_date_up)) = ["cancelledCapture"]
  /\ status_changes (effects_of (cancelCapture w_date_up)) = ["cancel"]
  /\ _captureOrder (state_of ((cancelCapture;; startCapture) w_date_up))
     = sample_template.
Proof. do 2 (split; [vm_compute; reflexivity|]). vm_compute; reflexivity. Qed.

(** ** What each operation leaves alone *)

Section Keeps.
Context {X : Type} (f : client -> X).

Lemma keeps_ret {A} (a : A) : keeps f (ret a).
Proof. intros w. reflexivity. Qed.

Lemma keeps_throw {A} (e : error) : keeps f (@throw A e).
Proof. intros w. reflexivity. Qed.

Lemma keeps_get : keeps f get.
Proof. intros w. reflexivity. Qed.

Lemma keeps_perform (e : effect) : keeps f (perform e).
Proof. intros w. reflexivity. Qed.

Lemma keeps_lift {A} (o : outcome A) : keeps f (lift o).
Proof. intros w. reflexivity. Qed.

Lemma keeps_date_now : keeps f date_now.
Proof. intros w. reflexivity. Qed.

Lemma keeps_await (e : effect) : keeps f (await e).
Proof. intros w. unfold await, state_of. destruct (net w (tick w)); reflexivity. Qed.

Lemma keeps_modify (g : client -> client) :
  (forall c, f (g c) = f c) -> keeps f (modify g).
Proof. intros H w. apply H. Qed.

Lemma keeps_bind {A B} (m : M A) (k : A -> M B) :
  keeps f m -> (forall a, keeps f (k a)) -> keeps f (bind m k).
Proof.
  intros Hm Hk w. specialize (Hm w). unfold bind, state_of in *.
  destruct (m w) as [[[a|e] w1] t1]; cbn [fst snd] in *; [|exact Hm].
  specialize (Hk a w1). unfold state_of in Hk.
  destruct (k a w1) as [[r w2] t2]; cbn [fst snd] in *. congruence.
Qed.

Lemma keeps_try_catch {A} (body : M A) (handler : error -> M A) :
  keeps f body -> (forall e, keeps f (handler e)) ->
  keeps f (try_catch body handler).
Proof.
  intros Hb Hh w. specialize (Hb w). unfold try_catch, state_of in *.
  destruct (body w) as [[[a|e] w1] t1]; cbn [fst snd] in *; [exact Hb|].
  specialize (Hh e w1). unfold state_of in Hh.
  destruct (handler e w1) as [[r w2] t2]; cbn [fst snd] in *. congruence.
Qed.

Lemma keeps_emit event arg : keeps f (emit event arg).
Proof. apply keeps_perform. Qed.

Lemma keeps_log_error method e : keeps f (log_error method e).
Proof. apply keeps_perform. Qed.

Lemma keeps_track method extra : keeps f (track method extra).
Proof. intros w. rewrite track_run. reflexivity. Qed.

Lemma keeps_updateCaptureType captureType : keeps f (_updateCaptureType captureType).
Proof. intros w. rewrite updateCaptureType_run. reflexivity. Qed.

Lemma keeps_with_payMap {A} (k : sync_map -> M A) :
  (forall m, keeps f (k m)) -> keeps f (with_payMap k).
Proof.
  intros Hk. unfold with_payMap. apply keeps_bind; [apply keeps_get|].
  intros c. destruct (_payMap c); [apply Hk|apply keeps_throw].
Qed.
End Keeps.

(** Breaks an operation into its steps and settles each step. *)
Ltac keeps_steps :=
  repeat first
    [ apply keeps_ret | apply keeps_throw | apply keeps_get
    | apply keeps_perform | apply keeps_lift | apply keeps_date_now
    | apply keeps_await | apply keeps_emit | apply keeps_log_error
    | apply keeps_track | apply keeps_updateCaptureType
    | apply keeps_modify; intros []; reflexivity
    | apply keeps_bind; [|intros ?]
    | apply keeps_try_catch; [|intros ?]
    | apply keeps_with_payMap; intros ?
    | match goal with
      | |- keeps _ (if ?b then _ else _) => destruct b
      | |- keeps _ (match ?x with _ => _ end) => destruct x
      end ].

Ltac keeps_op op :=
  destruct op; try discriminate; cbn [run_op];
  unfold attachPay, startCapture, cancelCapture, submitCapture, resetCard,
    resetSecurityCode, resetDate, reset_field, updateCallSid, detachPay,
    payMap_itemUpdated, uuiMap_itemAdded, _changeSession, _checkPayProgress;
  keeps_steps.

(** X1.  No method and no listener ever changes what the constructor set
    from its arguments: the URL, the identity, the token, the connector,
    the currency, the token type, the analytics flag and the capture-order
    template. *)
Theorem config_is_immutable (op : operation) : keeps config (run_op op).
Proof. keeps_op op. Qed.
(** X2.  The session id is assigned only by [startCapture] and by the
    [itemUpdated] listener, and the snapshot (capture flag, partial
    result, required set) only by the listener: every other operation,
    [cancelCapture], [submitCapture] and [detachPay] included, leaves them
    as they were. *)
Theorem session_assigned_only_by (op : operation) :
  (assigns_paySid op = false -> keeps _paySid (run_op op))
  /\ (assigns_snapshot op = false -> keeps snapshot (run_op op)).
Proof. split; intros H; keeps_op op. Qed.

Lemma session_assigned_only_by_witness :
  assigns_paySid OCancelCapture = false
  /\ assigns_snapshot OCancelCapture = false
  /\ _paySid (state_of (cancelCapture w_date_up)) = _paySid (self w_date_up)
  /\ snapshot (state_of (cancelCapture w_date_up)) = snapshot (self w_date_up).
Proof.
  destruct (session_assigned_only_by OCancelCapture) as [H1 H2].
  do 2 (split; [reflexivity|]).
  split; [exact (H1 eq_refl w_date_up)|exact (H2 eq_refl w_date_up)].
Defined.

(** X3.  The working order is left alone by [attachPay], [updateCallSid],
    [detachPay] and the [itemAdded] listener; the call id is assigned only
    by [attachPay], [updateCallSid] and the [itemAdded] listener; the
    pay-map handle only by [attachPay] and [detachPay]. *)
Theorem order_call_map_assigned_only_by (op : operation) :
  (assigns_captureOrder op = false -> keeps _captureOrder (run_op op))
  /\ (assigns_callSid op = false -> keeps callSid (run_op op))
  /\ (assigns_payMap op = false -> keeps _payMap (run_op op)).
Proof. repeat split; intros H; keeps_op op. Qed.

Lemma order_call_map_assigned_only_by_witness :
  assigns_captureOrder (OUpdateCallSid (JStr "CA2")) = false
  /\ assigns_callSid OStartCapture = false
  /\ assigns_payMap OStartCapture = false
  /\ _captureOrder (state_of (updateCallSid (JStr "CA2") w_date_up))
     = _captureOrder (self w_date_up)
  /\ callSid (state_of (startCapture w_date_up)) = callSid (self w_date_up)
  /\ _payMap (state_of (startCapture w_date_up)) = _payMap (self w_date_up).
Proof.
  do 3 (split; [reflexivity|]).
  destruct (order_call_map_assigned_only_by (OUpdateCallSid (JStr "CA2")))
    as (H1 & _ & _).
  destruct (order_call_map_assigned_only_by OStartCapture) as (_ & H2 & H3).
  split; [exact (H1 eq_refl w_date_up)|].
  split; [exact (H2 eq_refl w_date_up)|exact (H3 eq_refl w_date_up)].
Defined.

(** ** Which operations can throw *)

Lemma completes_ret {A} (a : A) : completes (ret a).
Proof. intros w. eexists; reflexivity. Qed.

Lemma completes_bind {A B} (m : M A) (k : A -> M B) :
  completes m -> (forall a, completes (k a)) -> completes (bind m k).
Proof.
  intros Hm Hk w. destruct (Hm w) as [a Ha]. unfold bind, result_of in *.
  destruct (m w) as [[r w1] t1]; cbn [fst] in Ha; subst r.
  destruct (Hk a w1) as [b Hb]. unfold result_of in Hb.
  destruct (k a w1) as [[r w2] t2]; cbn [fst] in *. eauto.
Qed.

(** A [try] whose [catch] block completes, completes, whatever its body
    does. *)
Lemma completes_try_catch {A} (body : M A) (handler : error -> M A) :
  (forall e, completes (handler e)) -> completes (try_catch body handler).
Proof.
  intros Hh w. unfold try_catch, result_of.
  destruct (body w) as [[[a|e] w1] t1]; cbn [fst]; [eauto|].
  destruct (Hh e w1) as [b Hb]. unfold result_of in Hb.
  destruct (handler e w1) as [[r w2] t2]; cbn [fst] in *. eauto.
Qed.

Lemma completes_get : completes get.
Proof. intros w. eexists; reflexivity. Qed.

Lemma completes_modify g : completes (modify g).
Proof. intros w. eexists; reflexivity. Qed.

Lemma completes_perform e : completes (perform e).
Proof. intros w. eexists; reflexivity. Qed.

Lemma completes_date_now : completes date_now.
Proof. intros w. eexists; reflexivity. Qed.

Lemma completes_track method extra : completes (track method extra).
Proof. intros w. rewrite track_run. eexists; reflexivity. Qed.

Lemma completes_updateCaptureType captureType :
  completes (_updateCaptureType captureType).
Proof. intros w. rewrite updateCaptureType_run. eexists; reflexivity. Qed.

Ltac completes_steps :=
  repeat first
    [ apply completes_ret | apply completes_get | apply completes_modify
    | apply completes_perform | apply completes_date_now
    | apply completes_track | apply completes_updateCaptureType
    | apply completes_try_catch; intros ?
    | apply completes_bind; [|intros ?]
    | match goal with
      | |- completes (if ?b then _ else _) => destruct b
      end ].

(** X4.  No public method ever throws to its caller (no promise it returns
    is rejected): whatever the replies of the remote side and whatever the
    state, [attachPay], [startCapture], [cancelCapture], [submitCapture],
    the reset methods, [updateCallSid] and [detachPay] complete normally. *)
Theorem methods_never_throw (op : operation) (w : world) :
  is_method op = true -> result_of (run_op op w) = Normal tt.
Proof.
  intros H.
  assert (Hc : completes (run_op op)).
  { destruct op; try discriminate; cbn [run_op];
      unfold attachPay, startCapture, cancelCapture, submitCapture, resetCard,
        resetSecurityCode, resetDate, reset_field, updateCallSid, detachPay,
        _changeSession, emit, log_error;
      completes_steps. }
  destruct (Hc w) as [[] Ha]. exact Ha.
Qed.

Lemma methods_never_throw_witness :
  is_method ODetachPay = true
  /\ result_of (detachPay w_new_no_map) = Normal tt.
Proof.
  split; [reflexivity|]. exact (methods_never_throw ODetachPay w_new_no_map eq_refl).
Defined.

(** ** The itemUpdated listener on malformed notifications *)

Lemma js_includes_not_collection R x :
  is_collection R = false -> exists msg, js_includes R x = Throw (TypeError msg).
Proof. destruct R; try discriminate; intros _; eexists; reflexivity. Qed.

Lemma js_includes_throw_inv R x e :
  js_includes R x = Throw e -> is_collection R = false.
Proof. destruct R; try discriminate; reflexivity. Qed.

(** X5.  The [itemUpdated] listener throws exactly when the notification's
    [Capture] is truthy and its [Required] is neither a string nor an
    array; the error is a TypeError raised by [includes], after the
    snapshot has been overwritten and [cardUpdate] emitted, and the working
    order is untouched.  A notification whose [Capture] is falsy never
    throws and never moves the order, whatever its [Required]. *)
Theorem itemUpdated_throws_iff (args : item) (w : world) :
  let r := payMap_itemUpdated args w in
  let malformed :=
    truthy (Capture (data args)) = true
    /\ is_collection (Required (data args)) = false in
  ((exists e, result_of r = Throw e) <-> malformed)
  /\ (malformed ->
      (exists msg, result_of r = Throw (TypeError msg))
      /\ state_of r = apply_item args (self w)
      /\ effects_of r = [Emit "cardUpdate" (Data (data args))])
  /\ (truthy (Capture (data args)) = false ->
      result_of r = Normal tt
      /\ state_of r = apply_item args (self w)
      /\ effects_of r = [Emit "cardUpdate" (Data (data args))]).
Proof.
  intros r malformed. subst r malformed.
  rewrite payMap_itemUpdated_run.
  set (w1 := with_self (apply_item args (self w)) w).
  assert (Hcap : _capture (self w1) = Capture (data args)) by reflexivity.
  assert (Hreq : _required (self w1) = Required (data args)) by reflexivity.
  destruct (truthy (Capture (data args))) eqn:Hc.
  - destruct (is_collection (Required (data args))) eqn:HR.
    + (* well-formed: the progress check does not throw *)
      assert (Hn : exists w' t, _checkPayProgress w1 = (Normal tt, w', t)).
      { pose proof (js_includes_collection _ (head (_captureOrder (self w1))) HR) as Hi.
        rewrite <- Hreq in Hi. rewrite <- Hcap in Hc.
        destruct (member _ _).
        - rewrite checkPayProgress_hold by assumption. eauto.
        - destruct (js_nonempty (_required (self w1))) eqn:Hne.
          + rewrite checkPayProgress_advance by assumption. eauto.
          + rewrite checkPayProgress_complete by assumption. eauto. }
      destruct Hn as (w' & t & ->). cbn.
      split; [split; [intros [e He]; discriminate|intros [_ H]; discriminate]|].
      split; [intros [_ H]; discriminate|discriminate].
    + destruct (js_includes_not_collection _ (head (_captureOrder (self w1))) HR)
        as [msg Hi].
      rewrite <- Hreq in Hi. rewrite <- Hcap in Hc.
      rewrite (checkPayProgress_throw w1 _ Hc Hi). cbn.
      split; [split; [intros _; split; reflexivity|intros _; eauto]|].
      split; [intros _; repeat split; eauto|discriminate].
  - rewrite <- Hcap in Hc. rewrite (checkPayProgress_idle w1 Hc). cbn.
    split; [split; [intros [e He]; discriminate|intros [H _]; discriminate]|].
    split; [intros [H _]; discriminate|intros _; repeat split].
Qed.

Lemma itemUpdated_throws_iff_witness :
  truthy (Capture (data (Item "PK1" (ItemData (JBool true) JUndefined JUndefined))))
    = true
  /\ is_collection
       (Required (data (Item "PK1" (ItemData (JBool true) JUndefined JUndefined))))
     = false
  /\ exists msg,
       result_of (payMap_itemUpdated
                    (Item "PK1" (ItemData (JBool true) JUndefined JUndefined))
                    w_date_up)
       = Throw (TypeError msg).
Proof.
  do 2 (split; [reflexivity|]).
  destruct (itemUpdated_throws_iff
              (Item "PK1" (ItemData (JBool true) JUndefined JUndefined)) w_date_up)
    as (_ & H & _).
  destruct (H (conj eq_refl eq_refl)) as (Hthrow & _). exact Hthrow.
Defined.
(** ** attachPay, detachPay and cancelCapture in full *)

(** X6.  On an object that has no pay map yet, [attachPay] ends with the
    [itemUpdated] listener registered exactly when the Sync client is
    created, the pay map is opened and, if no call id was given, the UUI
    map is opened as well: without a call id, a failure to open the UUI
    map leaves the pay map without its listener.  [callConnected] is
    emitted exactly when the first two steps succeed and a call id was
    given. *)
Theorem attachPay_attaches_iff (sid : jsval) (w : world) :
  _payMap (self w) = None ->
  let k := tick w in
  let given := truthy (callSid_argument sid) in
  attached (state_of (attachPay sid w))
  = resolved (net w k) && resolved (net w (S k))
    && (given || resolved (net w (S (S k))))
  /\ emitted (effects_of (attachPay sid w))
     = (if resolved (net w k) && resolved (net w (S k)) && given
        then ["callConnected"] else []).
Proof.
  intros Hmap. destruct w as [c k n cl]. cbn [self tick net] in *. cbv zeta.
  unfold attachPay, state_of, effects_of, attached. js_run.
  destruct (_analytics c); js_run.
  all: destruct (n k); js_run; [|rewrite Hmap; split; reflexivity].
  all: destruct (n (S k)); js_run; [|rewrite Hmap; split; reflexivity].
  all: destruct (truthy (callSid_argument sid)); js_run; [split; reflexivity|].
  all: destruct (n (S (S k))); js_run; split; reflexivity.
Qed.

Lemma attachPay_attaches_iff_witness :
  _payMap (self w_new_no_map) = None
  /\ attached (state_of (attachPay (JStr "CA1") w_new_no_map))
     = resolved (net w_new_no_map (tick w_new_no_map))
       && resolved (net w_new_no_map (S (tick w_new_no_map)))
       && (truthy (callSid_argument (JStr "CA1"))
           || resolved (net w_new_no_map (S (S (tick w_new_no_map))))).
Proof.
  split; [reflexivity|].
  destruct (attachPay_attaches_iff (JStr "CA1") w_new_no_map eq_refl) as [H _].
  exact H.
Defined.

Lemma cancelCapture_names_current_session w m :
  _payMap (self w) = Some m ->
  change_sessions (effects_of (cancelCapture w)) = [_paySid (self w)]
  /\ removed_keys (effects_of (cancelCapture w)) = [_paySid (self w)].
Proof.
  intros Hmap. destruct w as [c k n cl]. cbn [self] in *.
  unfold cancelCapture, _changeSession, effects_of. js_run.
  destruct (n k); js_run; rewrite Hmap; js_run;
    destruct (n (S k)); js_run;
    try destruct (_analytics c); split; reflexivity.
Qed.

(** X7.  On an object with a pay map, [detachPay] calls
    [removeAllListeners] and then [close] on the map and emits
    [stopCapturing] and nothing else.  It does not clear the handle: a
    second [detachPay] makes the same calls and emits [stopCapturing]
    again, and a [cancelCapture] after [detachPay] still asks the map to
    remove the item of the current session. *)
Theorem detachPay_keeps_handle (w : world) (m : sync_map) :
  _payMap (self w) = Some m ->
  let w' := (detachPay w).1.2 in
  effects_of (detachPay w)
  = MapRemoveAllListeners :: MapClose :: Emit "stopCapturing" NoArg
      :: tracked "detachPay" None w
  /\ emitted (effects_of (detachPay w)) = ["stopCapturing"]
  /\ _payMap (self w') <> None
  /\ effects_of (detachPay w')
     = MapRemoveAllListeners :: MapClose :: Emit "stopCapturing" NoArg
         :: tracked "detachPay" None w
  /\ removed_keys (effects_of (cancelCapture w')) = [_paySid (self w)].
Proof.
  intros Hmap. cbv zeta.
  assert (Hrun : detachPay w
                 = (Normal tt, with_self (set_payMap (Some (SyncMap false false)) (self w)) w,
                    MapRemoveAllListeners :: MapClose :: Emit "stopCapturing" NoArg
                      :: tracked "detachPay" None w)).
  { destruct w as [c k n cl]. cbn [self] in Hmap.
    unfold detachPay, tracked. js_run. rewrite Hmap. js_run.
    destruct (_analytics c); reflexivity. }
  rewrite Hrun. unfold effects_of at 1 2. cbn [fst snd].
  split; [reflexivity|].
  split.
  { change (?a :: ?b :: ?c :: ?t) with ([a; b; c] ++ t).
    rewrite emitted_app, emitted_tracked. reflexivity. }
  split; [discriminate|].
  split.
  - destruct w as [c k n cl]. unfold detachPay, tracked, effects_of. js_run.
    destruct (_analytics c); reflexivity.
  - destruct (cancelCapture_names_current_session
                (with_self (set_payMap (Some (SyncMap false false)) (self w)) w)
                (SyncMap false false) eq_refl) as [_ H].
    exact H.
Qed.

Lemma detachPay_keeps_handle_witness :
  _payMap (self w_date_up) = Some (SyncMap true true)
  /\ emitted (effects_of (detachPay w_date_up)) = ["stopCapturing"]
  /\ removed_keys (effects_of (cancelCapture (detachPay w_date_up).1.2))
     = [_paySid (self w_date_up)].
Proof.
  split; [reflexivity|].
  destruct (detachPay_keeps_handle w_date_up (SyncMap true true) eq_refl)
    as (_ & H2 & _ & _ & H5).
  split; [exact H2|exact H5].
Defined.

(** X8.  Before any successful [attachPay] the pay map is [null]:
    [detachPay] then changes nothing and emits nothing, it only logs the
    TypeError of the call on [null]; [cancelCapture] completes normally,
    still sends the cancel request and resets the working order to the
    template (leaving every other field as it was), but asks for no
    removal, emits nothing and logs the TypeError. *)
Theorem detach_and_cancel_without_payMap (w : world) :
  _payMap (self w) = None ->
  (self (detachPay w).1.2 = self w
   /\ exists msg, effects_of (detachPay w) = [LogError "detachPay" (TypeError msg)])
  /\ (result_of (cancelCapture w) = Normal tt
      /\ state_of (cancelCapture w)
         = set_captureOrder (_captureOrderTemplate (self w)) (self w)
      /\ status_changes (effects_of (cancelCapture w)) = ["cancel"]
      /\ emitted (effects_of (cancelCapture w)) = []
      /\ removed_keys (effects_of (cancelCapture w)) = []
      /\ exists msg,
           LogError "cancelCapture" (TypeError msg) ∈ effects_of (cancelCapture w)).
Proof.
  intros Hmap. split.
  - destruct w as [c k n cl]. cbn [self] in Hmap.
    unfold detachPay, effects_of. js_run. rewrite Hmap. js_run.
    split; [reflexivity|eauto].
  - destruct (cancelCapture_state w) as [Hres Hst].
    split; [exact Hres|]. split; [exact Hst|].
    destruct w as [c k n cl]. cbn [self] in Hmap.
    unfold cancelCapture, _changeSession, effects_of. js_run.
    destruct (n k); js_run; rewrite Hmap; js_run;
      (do 3 (split; [reflexivity|])); eexists;
      rewrite !elem_of_cons; eauto 6.
Qed.

Lemma detach_and_cancel_without_payMap_witness :
  _payMap (self w_new_no_map) = None
  /\ self (detachPay w_new_no_map).1.2 = self w_new_no_map
  /\ state_of (cancelCapture w_new_no_map)
     = set_captureOrder (_captureOrderTemplate (self w_new_no_map))
         (self w_new_no_map)
  /\ emitted (effects_of (cancelCapture w_new_no_map)) = [].
Proof.
  split; [reflexivity|].
  destruct (detach_and_cancel_without_payMap w_new_no_map eq_refl)
    as ((H1 & _) & _ & Hst & _ & H2 & _).
  split; [exact H1|]. split; [exact Hst|exact H2].
Defined.

(** X9.  With a pay map, [cancelCapture] sends one [changeSession] request
    with status [cancel], then asks the map to remove the item keyed by the
    current session id; [cancelledCapture] is emitted exactly when that
    removal succeeds, whether or not the cancel request itself succeeded. *)
Theorem cancelCapture_effects (w : world) (m : sync_map) :
  _payMap (self w) = Some m ->
  status_changes (effects_of (cancelCapture w)) = ["cancel"]
  /\ removed_keys (effects_of (cancelCapture w)) = [_paySid (self w)]
  /\ emitted (effects_of (cancelCapture w))
     = (if resolved (net w (S (tick w))) then ["cancelledCapture"] else []).
Proof.
  intros Hmap. destruct w as [c k n cl]. cbn [self tick net] in *.
  unfold cancelCapture, _changeSession, effects_of. js_run.
  destruct (n k); js_run; rewrite Hmap; js_run;
    destruct (n (S k)); js_run;
    try destruct (_analytics c); repeat split; reflexivity.
Qed.

Lemma cancelCapture_effects_witness :
  _payMap (self w_date_down) = Some (SyncMap true true)
  /\ status_changes (effects_of (cancelCapture w_date_down)) = ["cancel"]
  /\ removed_keys (effects_of (cancelCapture w_date_down))
     = [_paySid (self w_date_down)]
  /\ emitted (effects_of (cancelCapture w_date_down))
     = (if resolved (net w_date_down (S (tick w_date_down)))
        then ["cancelledCapture"] else []).
Proof.
  split; [reflexivity|].
  exact (cancelCapture_effects w_date_down (SyncMap true true) eq_refl).
Defined.

(** ** startCapture in full *)

Lemma reset_order_forgets o w :
  reset_order (with_self (set_captureOrder o (self w)) w) = reset_order w.
Proof. destruct w as [c k n cl]; destruct c; reflexivity. Qed.

Lemma changeSession_forgets changeType o w :
  _changeSession changeType (with_self (set_captureOrder o (self w)) w)
  = _changeSession changeType w.
Proof. rewrite !changeSession_run, reset_order_forgets. reflexivity. Qed.

(** X10.  [startCapture], [submitCapture] and [cancelCapture] do not depend
    on the working order they find: run from the same object with any
    other working order, each of them gives the same result, the same
    final state and the same effects.  In particular a [startCapture]
    repeated after a failed one behaves as a first one. *)
Theorem restarting_commands_ignore_order (w : world) (o : list string) :
  startCapture (with_self (set_captureOrder o (self w)) w) = startCapture w
  /\ submitCapture (with_self (set_captureOrder o (self w)) w) = submitCapture w
  /\ cancelCapture (with_self (set_captureOrder o (self w)) w) = cancelCapture w
  /\ (forall e, net w (tick w) = Reject e ->
      startCapture (startCapture w).1.2 = startCapture (next w)).
Proof.
  split; [|split; [|split]].
  - rewrite !startCapture_run. cbv zeta. rewrite reset_order_forgets.
    reflexivity.
  - rewrite !submitCapture_run. cbv zeta. rewrite reset_order_forgets.
    reflexivity.
  - unfold cancelCapture, bind. rewrite changeSession_forgets. reflexivity.
  - intros e He. rewrite (startCapture_run w). cbv zeta. rewrite He.
    cbn [fst snd].
    change (next (reset_order w))
      with (with_self (set_captureOrder (_captureOrderTemplate (self w))
                         (self (next w))) (next w)).
    rewrite !startCapture_run. cbv zeta. rewrite reset_order_forgets.
    reflexivity.
Qed.

Lemma restarting_commands_ignore_order_witness :
  net w_date_down (tick w_date_down) = Reject (Rejected "Network Error")
  /\ startCapture (startCapture w_date_down).1.2 = startCapture (next w_date_down).
Proof.
  split; [reflexivity|].
  destruct (restarting_commands_ignore_order w_date_down []) as (_ & _ & _ & H).
  exact (H _ eq_refl).
Defined.

Lemma order_includes_elem f o : order_includes f o = true <-> f ∈ o.
Proof.
  unfold order_includes. rewrite existsb_exists. split.
  - intros (x & Hin & Heq). apply String.eqb_eq in Heq. subst x.
    apply list_elem_of_In. exact Hin.
  - intros Hin. exists f. split; [apply list_elem_of_In; exact Hin|].
    apply String.eqb_refl.
Qed.

Lemma start_flags_app t1 t2 :
  start_flags (t1 ++ t2) = start_flags t1 ++ start_flags t2.
Proof. unfold start_flags. apply flat_map_app. Qed.

Lemma update_sessions_app t1 t2 :
  update_sessions (t1 ++ t2) = update_sessions t1 ++ update_sessions t2.
Proof. unfold update_sessions. apply flat_map_app. Qed.

Lemma start_flags_tracked method extra w : start_flags (tracked method extra w) = [].
Proof. unfold tracked. destruct (_analytics (self w)); reflexivity. Qed.

Lemma update_sessions_tracked method extra w :
  update_sessions (tracked method extra w) = [].
Proof. unfold tracked. destruct (_analytics (self w)); reflexivity. Qed.

Lemma start_flags_after captureType w :
  start_flags (updateCaptureType_after captureType w) = [].
Proof.
  unfold updateCaptureType_after. destruct (net w (tick w)); [|reflexivity].
  rewrite start_flags_app, start_flags_tracked.
  destruct (capturing_event captureType); reflexivity.
Qed.

Lemma update_sessions_after captureType w :
  update_sessions (updateCaptureType_after captureType w) = [].
Proof.
  unfold updateCaptureType_after. destruct (net w (tick w)); [|reflexivity].
  rewrite update_sessions_app, update_sessions_tracked.
  destruct (capturing_event captureType); reflexivity.
Qed.

(** X11.  [startCapture] sends exactly one start request, whose
    [SecurityCode] and [PostalCode] flags say whether [security-code] and
    [postal-code] occur in the template (not in the working order found).
    When the request is answered, the answer becomes the session id, and
    the [updateCaptureType] request sent in the same call already carries
    it; [capturing] is emitted, followed by the capturing event of the
    template's first field when that second request is acknowledged.  When
    the start request fails, the session id stays and nothing is emitted. *)
Theorem startCapture_session (w : world) :
  let T := _captureOrderTemplate (self w) in
  let r := startCapture w in
  (exists sc pc, start_flags (effects_of r) = [(sc, pc)]
     /\ (sc = true <-> "security-code" ∈ T)
     /\ (pc = true <-> "postal-code" ∈ T))
  /\ match net w (tick w) with
     | Resolve v =>
         _paySid (state_of r) = v
         /\ update_sessions (effects_of r) = [v]
         /\ emitted (effects_of r)
            = "capturing"
              :: match net w (S (tick w)), capturing_event (head T) with
                 | Resolve _, Some event => [event]
                 | _, _ => []
                 end
     | Reject _ =>
         _paySid (state_of r) = _paySid (self w)
         /\ update_sessions (effects_of r) = []
         /\ emitted (effects_of r) = []
     end.
Proof.
  cbv zeta. rewrite startCapture_run. cbv zeta.
  unfold state_of, effects_of.
  destruct (net w (tick w)) as [v|e]; cbn [fst snd].
  - split.
    + exists (order_includes "security-code" (_captureOrderTemplate (self w))),
        (order_includes "postal-code" (_captureOrderTemplate (self w))).
      split; [|split; apply order_includes_elem].
      change (?a :: ?b :: ?x :: ?l ++ ?t) with ([a; b; x] ++ l ++ t).
      rewrite !start_flags_app, start_flags_after, start_flags_tracked.
      reflexivity.
    + split; [reflexivity|]. split.
      * change (?a :: ?b :: ?x :: ?l ++ ?t) with ([a; b; x] ++ l ++ t).
        rewrite !update_sessions_app, update_sessions_after,
          update_sessions_tracked.
        reflexivity.
      * change (?a :: ?b :: ?x :: ?l ++ ?t) with ([a; b; x] ++ l ++ t).
        rewrite !emitted_app, emitted_after, emitted_tracked, app_nil_r.
        reflexivity.
  - split; [|repeat split; reflexivity].
    exists (order_includes "security-code" (_captureOrderTemplate (self w))),
      (order_includes "postal-code" (_captureOrderTemplate (self w))).
    split; [reflexivity|split; apply order_includes_elem].
Qed.
(** ** The reset methods *)

Lemma prepend_head field o : head (prepend field o) = Some field.
Proof.
  unfold prepend. destruct (front_is field o) eqn:E; [|reflexivity].
  apply front_is_head. exact E.
Qed.

Lemma prepend_idempotent field o : prepend field (prepend field o) = prepend field o.
Proof. apply prepend_front, prepend_head. Qed.

Lemma front_is_prepend field o : front_is field (prepend field o) = true.
Proof. apply front_is_head, prepend_head. Qed.

Lemma set_captureOrder_twice o o' c :
  set_captureOrder o (set_captureOrder o' c) = set_captureOrder o c.
Proof. destruct c; reflexivity. Qed.

(** The events of a reset method: the reset event unless the field is at
    the front, then the capturing event when the request is acknowledged. *)
Lemma reset_field_emitted field event method w :
  emitted (effects_of (reset_field field event method w))
  = (if front_is field (_captureOrder (self w)) then [] else [event])
    ++ match net w (tick w), capturing_event (Some field) with
       | Resolve _, Some capturing => [capturing]
       | _, _ => []
       end.
Proof.
  rewrite reset_field_run. cbv zeta. unfold effects_of; cbn [snd].
  change (?x :: ?l) with ([x] ++ l).
  rewrite !emitted_app, emitted_tracked, emitted_after, prepend_head.
  destruct (front_is field (_captureOrder (self w))); reflexivity.
Qed.

Lemma reset_field_active field event method w :
  set_active_fields (effects_of (reset_field field event method w)) = [Some field].
Proof.
  rewrite reset_field_run. cbv zeta. unfold effects_of; cbn [snd].
  change (?x :: ?l) with ([x] ++ l).
  rewrite !set_active_fields_app, set_active_fields_tracked,
    set_active_fields_after, prepend_head.
  destruct (front_is field (_captureOrder (self w))); reflexivity.
Qed.

(** X12.  Each of [resetCard], [resetSecurityCode] and [resetDate], in any
    state: afterwards its field is the front of the working order, and one
    [updateCaptureType] request for that field has been issued; the reset
    event is emitted exactly when the field was not the front before; and
    calling the method a second time changes the state no further and
    emits no second reset event. *)
Theorem reset_makes_field_active (field event : string) (m : M unit) (w : world) :
  (field, event, m) ∈ reset_table ->
  head (_captureOrder (state_of (m w))) = Some field
  /\ set_active_fields (effects_of (m w)) = [Some field]
  /\ (event ∈ emitted (effects_of (m w))
      <-> head (_captureOrder (self w)) <> Some field)
  /\ state_of (m (m w).1.2) = state_of (m w)
  /\ (event ∉ emitted (effects_of (m (m w).1.2))).
Proof.
  intros Hin.
  assert (Hm : exists method,
             m = reset_field field event method
             /\ capturing_event (Some field) <> Some event
             /\ capturing_event (Some field) <> None).
  { unfold reset_table in Hin. rewrite !elem_of_cons in Hin.
    destruct Hin as [[= -> -> ->]|[[= -> -> ->]|[[= -> -> ->]|Hin]]];
      [eexists; repeat split; try reflexivity; discriminate ..|].
    apply elem_of_nil in Hin. contradiction. }
  destruct Hm as (method & -> & Hne & Hsome).
  assert (Hnotin : forall w0,
             event ∉ match net w0 (tick w0), capturing_event (Some field) with
                     | Resolve _, Some capturing => [capturing]
                     | _, _ => []
                     end).
  { intros w0. destruct (net w0 (tick w0)); [|apply not_elem_of_nil].
    destruct (capturing_event (Some field)) as [ev|]; [|apply not_elem_of_nil].
    intros H. apply list_elem_of_singleton in H. congruence. }
  split; [rewrite reset_field_order; apply prepend_head|].
  split; [apply reset_field_active|].
  split; [|split].
  - rewrite reset_field_emitted, elem_of_app.
    destruct (front_is field (_captureOrder (self w))) eqn:E.
    + apply front_is_head in E. split.
      * intros [H|H]; [inversion H|exfalso; exact (Hnotin w H)].
      * intros H. contradiction.
    + split.
      * intros _ H. apply front_is_head in H. congruence.
      * intros _. left. apply list_elem_of_singleton. reflexivity.
  - rewrite !reset_field_run. cbv zeta. unfold state_of. cbn [fst snd self next with_self].
    cbn [_captureOrder set_captureOrder].
    rewrite prepend_idempotent, set_captureOrder_twice. reflexivity.
  - rewrite reset_field_emitted, elem_of_app.
    rewrite (reset_field_run field event method w). cbv zeta.
    cbn [fst snd self next with_self _captureOrder set_captureOrder].
    rewrite front_is_prepend.
    intros [H|H]; [inversion H|].
    exact (Hnotin _ H).
Qed.

Lemma reset_makes_field_active_witness :
  ("expiration-date", "dateReset", resetDate) ∈ reset_table
  /\ head (_captureOrder (state_of (resetDate w_start_up))) = Some "expiration-date"
  /\ set_active_fields (effects_of (resetDate w_start_up)) = [Some "expiration-date"].
Proof.
  assert (Hin : ("expiration-date", "dateReset", resetDate) ∈ reset_table).
  { unfold reset_table. rewrite !elem_of_cons. auto. }
  split; [exact Hin|].
  destruct (reset_makes_field_active "expiration-date" "dateReset" resetDate
              w_start_up Hin) as (H1 & H2 & _).
  split; [exact H1|exact H2].
Defined.

(** ** The template the constructor derives *)

Lemma split_comma_nonempty s : split_comma s <> [].
Proof.
  destruct s as [|c s]; cbn; [discriminate|].
  destruct (Ascii.eqb c ","); [discriminate|].
  destruct (split_comma s); discriminate.
Qed.

Lemma split_comma_length s : length (split_comma s) = S (count_commas s).
Proof.
  induction s as [|c s IH]; cbn; [reflexivity|].
  destruct (Ascii.eqb c ","); cbn; [rewrite IH; reflexivity|].
  destruct (split_comma s) as [|p ps] eqn:E; [|exact IH].
  destruct (split_comma_nonempty s E).
Qed.

Lemma split_comma_no_comma s : Forall (fun p => has_comma p = false) (split_comma s).
Proof.
  induction s as [|c s IH]; cbn; [repeat constructor|].
  destruct (Ascii.eqb c ",") eqn:Ec; [constructor; [reflexivity|exact IH]|].
  destruct (split_comma s) as [|p ps].
  - constructor; [cbn; rewrite Ec; reflexivity|constructor].
  - inversion IH as [|? ? Hp Hps]; subst.
    constructor; [cbn; rewrite Ec, Hp; reflexivity|exact Hps].
Qed.

Lemma join_comma_cons_char c p ps :
  join_comma (String c p :: ps) = String c (join_comma (p :: ps)).
Proof. destruct ps; reflexivity. Qed.

Lemma join_split_comma s : join_comma (split_comma s) = s.
Proof.
  induction s as [|c s IH]; [reflexivity|]. cbn [split_comma].
  destruct (Ascii.eqb c ",") eqn:Ec.
  - apply Ascii.eqb_eq in Ec. subst c.
    destruct (split_comma s) as [|p ps] eqn:E; [destruct (split_comma_nonempty s E)|].
    change (join_comma ("" :: p :: ps))
      with ("" ++ "," ++ join_comma (p :: ps))%string.
    rewrite IH. reflexivity.
  - destruct (split_comma s) as [|p ps] eqn:E; [destruct (split_comma_nonempty s E)|].
    rewrite join_comma_cons_char, IH. reflexivity.
Qed.

(** *** Trimming *)

Lemma append_nil_r (s : string) : (s ++ "")%string = s.
Proof. induction s as [|c s IH]; cbn; [reflexivity|rewrite IH; reflexivity]. Qed.

Lemma append_assoc (a b c : string) : ((a ++ b) ++ c = a ++ (b ++ c))%string.
Proof. induction a as [|x a IH]; cbn; [reflexivity|rewrite IH; reflexivity]. Qed.

Lemma length_append (a b : string) :
  String.length (a ++ b) = String.length a + String.length b.
Proof. induction a as [|x a IH]; cbn; [reflexivity|rewrite IH; reflexivity]. Qed.

Lemma string_rev_append (a b : string) :
  string_rev (a ++ b) = (string_rev b ++ string_rev a)%string.
Proof.
  induction a as [|x a IH]; cbn; [rewrite append_nil_r; reflexivity|].
  rewrite IH, append_assoc. reflexivity.
Qed.

Lemma string_rev_involutive (s : string) : string_rev (string_rev s) = s.
Proof.
  induction s as [|c s IH]; [reflexivity|]. cbn.
  rewrite string_rev_append, IH. reflexivity.
Qed.

Lemma length_string_rev (s : string) : String.length (string_rev s) = String.length s.
Proof.
  induction s as [|c s IH]; [reflexivity|]. cbn.
  rewrite length_append, IH. cbn. lia.
Qed.

Lemma strip_prefix_append p r : strip_prefix p (p ++ r) = Some r.
Proof.
  induction p as [|a p IH]; [reflexivity|]. cbn. rewrite Ascii.eqb_refl. exact IH.
Qed.

Lemma strip_prefix_Some p s r : strip_prefix p s = Some r -> s = (p ++ r)%string.
Proof.
  revert s. induction p as [|a p IH]; intros s H; [cbn in *; congruence|].
  destruct s as [|b s]; [discriminate|]. cbn in H.
  destruct (Ascii.eqb a b) eqn:E; [|discriminate].
  apply Ascii.eqb_eq in E. subst b. rewrite (IH s H). reflexivity.
Qed.

Lemma strip_any_Some ps s r :
  strip_any ps s = Some r -> exists p, p ∈ ps /\ s = (p ++ r)%string.
Proof.
  induction ps as [|p ps IH]; [discriminate|]. cbn.
  destruct (strip_prefix p s) as [r'|] eqn:E.
  - intros [= ->]. exists p. split; [apply list_elem_of_here|].
    apply strip_prefix_Some, E.
  - intros H. destruct (IH H) as (q & Hq & Hs).
    exists q. split; [apply list_elem_of_further, Hq|exact Hs].
Qed.

Lemma strip_any_starts ps p r : p ∈ ps -> strip_any ps (p ++ r) <> None.
Proof.
  induction ps as [|q ps IH]; intros Hin; [inversion Hin|].
  cbn. destruct (strip_prefix q (p ++ r)) eqn:E; [discriminate|].
  apply elem_of_cons in Hin. destruct Hin as [->|Hin]; [|exact (IH Hin)].
  rewrite strip_prefix_append in E. discriminate.
Qed.

Section DropLeading.
Context (ps : list string) (Hps : Forall (fun p => p <> "") ps).

Lemma drop_leading_run fuel s :
  exists pre, run ps pre /\ s = (pre ++ drop_leading ps fuel s)%string.
Proof.
  revert s. induction fuel as [|fuel IH]; intros s; cbn.
  - exists "". split; [constructor|reflexivity].
  - destruct (strip_any ps s) as [r|] eqn:E.
    + destruct (strip_any_Some _ _ _ E) as (p & Hp & ->).
      destruct (IH r) as (pre & Hpre & Hr).
      exists (p ++ pre)%string. split; [constructor; assumption|].
      rewrite append_assoc, <- Hr. reflexivity.
    + exists "". split; [constructor|reflexivity].
Qed.

Lemma drop_leading_done fuel s :
  String.length s <= fuel -> strip_any ps (drop_leading ps fuel s) = None.
Proof.
  revert s. induction fuel as [|fuel IH]; intros s Hlen; cbn.
  - destruct s; [|cbn in Hlen; lia].
    destruct (strip_any ps "") as [r|] eqn:E; [|reflexivity].
    destruct (strip_any_Some _ _ _ E) as (p & Hp & Hs).
    rewrite Forall_forall in Hps. specialize (Hps p Hp).
    destruct p; [congruence|discriminate].
  - destruct (strip_any ps s) as [r|] eqn:E; [|exact E].
    apply IH. destruct (strip_any_Some _ _ _ E) as (p & Hp & ->).
    rewrite Forall_forall in Hps. specialize (Hps p Hp).
    rewrite length_append in Hlen. destruct p; [congruence|cbn in Hlen; lia].
Qed.

Lemma drop_leading_fixed fuel s :
  strip_any ps s = None -> drop_leading ps fuel s = s.
Proof. intros H. destruct fuel; cbn; [reflexivity|rewrite H; reflexivity]. Qed.
End DropLeading.

Lemma white_space_not_empty : Forall (fun p => p <> "") white_space.
Proof. unfold white_space. cbn. repeat constructor; discriminate. Qed.

Lemma white_space_rev_not_empty :
  Forall (fun p => p <> "") (List.map string_rev white_space).
Proof. unfold white_space. cbn. repeat constructor; discriminate. Qed.

Lemma spaces_append a b : spaces a -> spaces b -> spaces (a ++ b).
Proof.
  unfold spaces. intros Ha Hb. induction Ha as [|p s Hp Hs IH]; [exact Hb|].
  rewrite append_assoc. constructor; assumption.
Qed.

Lemma run_rev_spaces pre :
  run (List.map string_rev white_space) pre -> spaces (string_rev pre).
Proof.
  induction 1 as [|p s Hp Hs IH]; [constructor|].
  rewrite string_rev_append. apply spaces_append; [exact IH|].
  apply list_elem_of_fmap in Hp. destruct Hp as (q & -> & Hq).
  rewrite string_rev_involutive, <- (append_nil_r q).
  unfold spaces. constructor; [exact Hq|constructor].
Qed.

Lemma trim_start_padded s :
  exists pre, spaces pre /\ s = (pre ++ trim_start s)%string.
Proof.
  destruct (drop_leading_run white_space (String.length s) s) as (pre & Hpre & Hs).
  exists pre. split; [exact Hpre|exact Hs].
Qed.

Lemma trim_end_padded s :
  exists post, spaces post /\ s = (trim_end s ++ post)%string.
Proof.
  destruct (drop_leading_run (List.map string_rev white_space)
              (String.length s) (string_rev s)) as (pre & Hpre & Hs).
  exists (string_rev pre). split; [apply run_rev_spaces, Hpre|].
  unfold trim_end. rewrite <- string_rev_append, <- Hs.
  symmetry. apply string_rev_involutive.
Qed.

Lemma trim_padded s : padded s (trim s).
Proof.
  destruct (trim_start_padded s) as (pre & Hpre & Hs).
  destruct (trim_end_padded (trim_start s)) as (post & Hpost & Ht).
  exists pre, post. unfold trim. rewrite <- Ht. auto.
Qed.

(** The fuel of [trim_start] and [trim_end] is enough: nothing is left to
    strip from what they return. *)
Lemma trim_start_stripped s : strip_any white_space (trim_start s) = None.
Proof. apply drop_leading_done; [exact white_space_not_empty|lia]. Qed.

Lemma trim_end_stripped s :
  strip_any (List.map string_rev white_space) (string_rev (trim_end s)) = None.
Proof.
  unfold trim_end. rewrite string_rev_involutive.
  apply drop_leading_done; [exact white_space_rev_not_empty|].
  rewrite length_string_rev. lia.
Qed.

Lemma no_space_at_start s : strip_any white_space s = None -> ~ space_at_start s.
Proof. intros H (p & r & Hp & ->). exact (strip_any_starts _ _ _ Hp H). Qed.

Lemma no_space_at_end s :
  strip_any (List.map string_rev white_space) (string_rev s) = None ->
  ~ space_at_end s.
Proof.
  intros H (p & r & Hp & ->). rewrite string_rev_append in H.
  refine (strip_any_starts _ _ _ _ H).
  apply list_elem_of_fmap. exists p. split; [reflexivity|exact Hp].
Qed.

Lemma not_space_at_start_strip s : ~ space_at_start s -> strip_any white_space s = None.
Proof.
  intros H. destruct (strip_any white_space s) as [r|] eqn:E; [|reflexivity].
  destruct (strip_any_Some _ _ _ E) as (p & Hp & Hs).
  destruct H. exists p, r. split; assumption.
Qed.

(** Stripping at the end does not uncover white space at the start. *)
Lemma trim_end_keeps_start s : ~ space_at_start s -> ~ space_at_start (trim_end s).
Proof.
  intros H (p & r & Hp & Hs). apply H.
  destruct (trim_end_padded s) as (post & _ & Ht).
  exists p, (r ++ post)%string. split; [exact Hp|].
  rewrite Ht at 1. rewrite Hs, append_assoc. reflexivity.
Qed.

Lemma trim_no_space s : ~ space_at_start (trim s) /\ ~ space_at_end (trim s).
Proof.
  split.
  - apply trim_end_keeps_start, no_space_at_start, trim_start_stripped.
  - apply no_space_at_end, trim_end_stripped.
Qed.

Lemma trim_trim s : trim (trim s) = trim s.
Proof.
  destruct (trim_no_space s) as [H1 H2].
  assert (E1 : trim_start (trim s) = trim s).
  { apply drop_leading_fixed, not_space_at_start_strip, H1. }
  unfold trim at 1. rewrite E1. unfold trim_end at 1.
  rewrite drop_leading_fixed; [apply string_rev_involutive|].
  exact (trim_end_stripped (trim_start s)).
Qed.

Lemma has_comma_app a b : has_comma (a ++ b) = has_comma a || has_comma b.
Proof.
  induction a as [|c a IH]; [reflexivity|]. cbn. rewrite IH.
  destruct (Ascii.eqb c ","); reflexivity.
Qed.

Lemma has_comma_trim s : has_comma s = false -> has_comma (trim s) = false.
Proof.
  intros H. destruct (trim_padded s) as (pre & post & Hs & _).
  rewrite Hs, !has_comma_app in H.
  destruct (has_comma pre); [discriminate|].
  destruct (has_comma (trim s)); [discriminate|reflexivity].
Qed.

(** X14.  For every capture-order string the constructor succeeds; the
    template and the working order are equal and never empty (the empty
    string gives one empty field); there is one field per comma plus one;
    no field contains a comma, starts with a white-space character or
    ends with one; and the fields are the comma-separated parts of the
    argument with their surrounding white space removed, the parts joined
    by commas being the argument itself. *)
Theorem constructor_template
    (url ident token connector : string) (cur tok : option string)
    (key : jsval) (s : string) :
  exists c,
    constructor url ident token connector (JStr s) cur tok key = Normal c
    /\ _captureOrder c = _captureOrderTemplate c
    /\ _captureOrderTemplate c <> []
    /\ length (_captureOrderTemplate c) = S (count_commas s)
    /\ Forall (fun field =>
                 has_comma field = false
                 /\ ~ space_at_start field
                 /\ ~ space_at_end field)
         (_captureOrderTemplate c)
    /\ Forall2 padded (split_comma s) (_captureOrderTemplate c)
    /\ join_comma (split_comma s) = s.
Proof.
  eexists. split; [reflexivity|]. cbn.
  split; [reflexivity|]. split.
  { intros H. apply map_eq_nil in H. exact (split_comma_nonempty s H). }
  split; [rewrite length_map; apply split_comma_length|].
  split.
  { apply Forall_map. eapply Forall_impl; [apply split_comma_no_comma|].
    intros p Hp. cbn. split; [apply has_comma_trim, Hp|apply trim_no_space]. }
  split; [|apply join_split_comma].
  apply Forall2_fmap_r, Forall_Forall2_diag, Forall_forall.
  intros p _. apply trim_padded.
Qed.

(** ** A whole capture *)








(** ** The events an operation can emit *)

Section Speaks.
Context (L : list string).

Lemma speaks_silent {A} (m : M A) :
  (forall w, emitted (effects_of (m w)) = []) -> speaks L m.
Proof. intros H w ev Hev. rewrite H in Hev. inversion Hev. Qed.

Lemma speaks_bind {A B} (m : M A) (k : A -> M B) :
  speaks L m -> (forall a, speaks L (k a)) -> speaks L (bind m k).
Proof.
  intros Hm Hk w ev. specialize (Hm w ev). unfold bind, effects_of in *.
  destruct (m w) as [[[a|e] w1] t1]; cbn [snd] in *; [|exact Hm].
  specialize (Hk a w1 ev). unfold effects_of in Hk.
  destruct (k a w1) as [[r w2] t2]; cbn [snd] in *.
  rewrite emitted_app, elem_of_app. intros [H|H]; auto.
Qed.

Lemma speaks_try_catch {A} (body : M A) (handler : error -> M A) :
  speaks L body -> (forall e, speaks L (handler e)) ->
  speaks L (try_catch body handler).
Proof.
  intros Hb Hh w ev. specialize (Hb w ev). unfold try_catch, effects_of in *.
  destruct (body w) as [[[a|e] w1] t1]; cbn [snd] in *; [exact Hb|].
  specialize (Hh e w1 ev). unfold effects_of in Hh.
  destruct (handler e w1) as [[r w2] t2]; cbn [snd] in *.
  rewrite emitted_app, elem_of_app. intros [H|H]; auto.
Qed.

Lemma speaks_emit event arg : event ∈ L -> speaks L (emit event arg).
Proof.
  intros H w ev Hev. cbn in Hev. apply list_elem_of_singleton in Hev.
  subst ev. exact H.
Qed.

Lemma speaks_perform e : emitted [e] = [] -> speaks L (perform e).
Proof. intros H. apply speaks_silent. intros w. exact H. Qed.

Lemma speaks_await e : emitted [e] = [] -> speaks L (await e).
Proof.
  intros H. apply speaks_silent. intros w. unfold await, effects_of.
  destruct (net w (tick w)); exact H.
Qed.

Lemma speaks_track method extra : speaks L (track method extra).
Proof.
  apply speaks_silent. intros w. rewrite track_run. apply emitted_tracked.
Qed.

Lemma speaks_updateCaptureType captureType :
  "capturingCard" ∈ L -> "capturingSecurityCode" ∈ L -> "capturingDate" ∈ L ->
  speaks L (_updateCaptureType captureType).
Proof.
  intros H1 H2 H3 w ev. rewrite updateCaptureType_run.
  unfold effects_of; cbn [snd]. change (?x :: ?l) with ([x] ++ l).
  rewrite emitted_app, emitted_after. cbn [emitted flat_map app].
  destruct (net w (tick w)); [|inversion 1].
  destruct (capturing_event captureType) as [event|] eqn:E; [|inversion 1].
  intros H. apply list_elem_of_singleton in H. subst ev.
  apply capturing_event_cases in E. destruct E as [->|[->| ->]]; assumption.
Qed.

Lemma speaks_with_payMap {A} (k : sync_map -> M A) :
  (forall m, speaks L (k m)) -> speaks L (with_payMap k).
Proof.
  intros Hk. unfold with_payMap.
  apply speaks_bind; [apply speaks_silent; reflexivity|].
  intros c. destruct (_payMap c); [apply Hk|apply speaks_silent; reflexivity].
Qed.
End Speaks.

(** Settles membership in a list of literals. *)
Ltac in_literals :=
  repeat first [apply list_elem_of_here | apply list_elem_of_further].

Ltac speaks_steps :=
  repeat first
    [ apply speaks_emit; in_literals
    | apply speaks_track
    | apply speaks_updateCaptureType; in_literals
    | apply speaks_await; reflexivity
    | apply speaks_perform; reflexivity
    | apply speaks_silent; reflexivity
    | apply speaks_bind; [|intros ?]
    | apply speaks_try_catch; [|intros ?]
    | apply speaks_with_payMap; intros ?
    | match goal with
      | |- speaks _ (if ?b then _ else _) => destruct b
      | |- speaks _ (match ?x with _ => _ end) => destruct x
      end ].

(** X16.  Whatever the state and the replies, every event emitted by a
    method or a listener is one of fourteen names: the twelve listed in
    the documentation of the class, [UUIItemAdded] and [stopCapturing].
    No event reports a failure. *)
Theorem only_known_events (op : operation) (w : world) (ev : string) :
  ev ∈ emitted (effects_of (run_op op w)) -> ev ∈ events.
Proof.
  revert w ev. change (speaks events (run_op op)).
  destruct op; cbn [run_op];
    unfold attachPay, startCapture, cancelCapture, submitCapture, resetCard,
      resetSecurityCode, resetDate, reset_field, updateCallSid, detachPay,
      payMap_itemUpdated, uuiMap_itemAdded, _changeSession, _checkPayProgress,
      log_error, lift;
    speaks_steps.
Qed.

Lemma only_known_events_witness :
  "capturing" ∈ emitted (effects_of (run_op OStartCapture w_date_up))
  /\ "capturing" ∈ events.
Proof.
  assert (H : "capturing" ∈ emitted (effects_of (run_op OStartCapture w_date_up))).
  { vm_compute. in_literals. }
  split; [exact H|]. exact (only_known_events OStartCapture w_date_up "capturing" H).
Defined.
(** ** Writing the template back as a capture-order string *)

Lemma split_comma_app_comma p s :
  has_comma p = false ->
  split_comma (p ++ String "," s) = p :: split_comma s.
Proof.
  induction p as [|c p IH]; intros H; [reflexivity|].
  cbn in H. apply orb_false_elim in H. destruct H as [Hc Hp].
  cbn [String.append split_comma]. rewrite Hc, (IH Hp). reflexivity.
Qed.

Lemma split_comma_single p : has_comma p = false -> split_comma p = [p].
Proof.
  induction p as [|c p IH]; intros H; [reflexivity|].
  cbn in H. apply orb_false_elim in H. destruct H as [Hc Hp].
  cbn [split_comma]. rewrite Hc, (IH Hp). reflexivity.
Qed.

Lemma split_join_comma l :
  l <> [] -> Forall (fun p => has_comma p = false) l ->
  split_comma (join_comma l) = l.
Proof.
  induction l as [|p l IH]; [congruence|]. intros _ H.
  inversion H as [|? ? Hp Hl]; subst.
  destruct l as [|q l]; [apply split_comma_single, Hp|].
  change (join_comma (p :: q :: l))
    with (p ++ String "," (join_comma (q :: l)))%string.
  rewrite (split_comma_app_comma _ _ Hp), IH; [reflexivity|discriminate|exact Hl].
Qed.

(** X17.  The template survives a round trip through its string form: for
    every capture-order string, constructing a second client from the
    first client's template joined by commas gives the same template and
    the same working order. *)
Theorem constructor_round_trip
    (url ident token connector : string) (cur tok : option string)
    (key : jsval) (s : string) (c : client) :
  constructor url ident token connector (JStr s) cur tok key = Normal c ->
  exists c',
    constructor url ident token connector
      (JStr (join_comma (_captureOrderTemplate c))) cur tok key = Normal c'
    /\ _captureOrderTemplate c' = _captureOrderTemplate c
    /\ _captureOrder c' = _captureOrder c.
Proof.
  intros [= <-]. eexists. split; [reflexivity|]. cbn.
  assert (H : List.map trim
                (split_comma (join_comma (List.map trim (split_comma s))))
              = List.map trim (split_comma s)).
  { rewrite split_join_comma.
    - rewrite List.map_map. apply List.map_ext. intros p.
      apply trim_trim.
    - intros E. apply map_eq_nil in E. exact (split_comma_nonempty s E).
    - apply Forall_map. eapply Forall_impl; [apply split_comma_no_comma|].
      intros p Hp. apply has_comma_trim, Hp. }
  split; exact H.
Qed.

Lemma constructor_round_trip_witness :
  fresh_client " payment-card-number ,security-code" = Normal
    (Client "https://pay.example" "agent" "token" "connector"
       ["payment-card-number"; "security-code"]
       ["payment-card-number"; "security-code"] "USD" "reusable" false
       JNull "" false None (JStr "") (JStr "") (JBool true) (JStr ""))
  /\ exists c',
       fresh_client "payment-card-number,security-code" = Normal c'
       /\ _captureOrderTemplate c' = ["payment-card-number"; "security-code"].
Proof.
  split; [reflexivity|].
  destruct (constructor_round_trip "https://pay.example" "agent" "token"
              "connector" None None JNull
              " payment-card-number ,security-code" _ eq_refl)
    as (c' & H1 & H2 & _).
  exists c'. split; [exact H1|exact H2].
Defined.

(** ** A required set given as a string *)

(** X18.  When the required set arrives as a string, the progress check
    tests the active field by substring search: with capture on and
    active field [F], the check holds (changes nothing, does nothing)
    exactly when [F] occurs somewhere inside the string, be it as a whole
    comma-separated item or as a part of one. *)
Theorem string_required_is_searched (w : world) (F s : string) (rest : list string) :
  truthy (_capture (self w)) = true ->
  _captureOrder (self w) = F :: rest ->
  _required (self w) = JStr s ->
  _checkPayProgress w = (Normal tt, w, [])
  <-> exists pre post, s = (pre ++ F ++ post)%string.
Proof.
  intros Hc Ho HR. rewrite <- str_includes_substring.
  assert (Hi : js_includes (_required (self w)) (head (_captureOrder (self w)))
               = Normal (str_includes F s)).
  { rewrite Ho, HR. reflexivity. }
  destruct (str_includes F s) eqn:E.
  - rewrite (checkPayProgress_hold w Hc Hi). split; reflexivity.
  - split; [|discriminate]. intros Hrun.
    destruct (js_nonempty (_required (self w))) eqn:Hn.
    + rewrite (checkPayProgress_advance w Hc Hi Hn) in Hrun. discriminate.
    + rewrite (checkPayProgress_complete w Hc Hi Hn) in Hrun. discriminate.
Qed.

Lemma string_required_is_searched_witness :
  truthy (_capture (self w_code_field)) = true
  /\ _captureOrder (self w_code_field) = "code" :: []
  /\ _required (self w_code_field) = JStr "security-code"
  /\ _checkPayProgress w_code_field = (Normal tt, w_code_field, []).
Proof.
  do 3 (split; [reflexivity|]).
  apply (string_required_is_searched w_code_field "code" "security-code" []
           eq_refl eq_refl eq_refl).
  exists "security-", "". reflexivity.
Defined.

(** ** Notifications on an empty order *)

Lemma member_undefined_in_strings l :
  member None (JArr (List.map JStr l)) = false.
Proof. unfold member; cbn. induction l as [|g l IH]; [reflexivity|exact IH]. Qed.

(** X19.  Once the working order is empty it stays empty, and the progress
    check keeps asking for a field that does not exist: with capture on
    and a non-empty array of field names as the required set, every
    notification leaves the order empty, issues one [updateCaptureType]
    request whose field is [undefined], and emits nothing but
    [cardUpdate]; [captureComplete] is not emitted. *)
Theorem empty_order_requests_undefined (args : item) (l : list string) (w : world) :
  _captureOrder (self w) = [] ->
  truthy (Capture (data args)) = true ->
  Required (data args) = JArr (List.map JStr l) ->
  l <> [] ->
  result_of (payMap_itemUpdated args w) = Normal tt
  /\ _captureOrder (state_of (payMap_itemUpdated args w)) = []
  /\ set_active_fields (effects_of (payMap_itemUpdated args w)) = [None]
  /\ emitted (effects_of (payMap_itemUpdated args w)) = ["cardUpdate"].
Proof.
  intros Ho Hc HR Hl. rewrite payMap_itemUpdated_run.
  set (w1 := with_self (apply_item args (self w)) w).
  assert (Hc1 : truthy (_capture (self w1)) = true) by exact Hc.
  assert (Ho1 : _captureOrder (self w1) = []) by exact Ho.
  assert (HR1 : _required (self w1) = JArr (List.map JStr l)) by exact HR.
  assert (Hi : js_includes (_required (self w1)) (head (_captureOrder (self w1)))
               = Normal false).
  { rewrite Ho1, HR1. cbn [head].
    rewrite (js_includes_collection (JArr (List.map JStr l)) _ eq_refl).
    rewrite member_undefined_in_strings. reflexivity. }
  assert (Hn : js_nonempty (_required (self w1)) = true).
  { rewrite HR1. destruct l; [congruence|reflexivity]. }
  rewrite (checkPayProgress_advance w1 Hc1 Hi Hn). cbv zeta.
  rewrite Ho1. cbn [tail head].
  unfold result_of, state_of, effects_of. cbn [fst snd].
  split; [reflexivity|]. split; [reflexivity|].
  split.
  - change (?a :: ?b :: ?t) with ([a; b] ++ t).
    rewrite set_active_fields_app, set_active_fields_after. reflexivity.
  - change (?a :: ?b :: ?t) with ([a; b] ++ t).
    rewrite emitted_app, emitted_after. cbn [capturing_event].
    destruct (net _ _); reflexivity.
Qed.

Lemma empty_order_requests_undefined_witness :
  _captureOrder (self (sample_world (sample_client [] (JBool true) (JArr [])) net_up))
    = []
  /\ truthy (Capture (data stale_item)) = true
  /\ Required (data stale_item)
     = JArr (List.map JStr ["security-code"; "expiration-date"])
  /\ ["security-code"; "expiration-date"] <> []
  /\ set_active_fields
       (effects_of
          (payMap_itemUpdated stale_item
             (sample_world (sample_client [] (JBool true) (JArr [])) net_up)))
     = [None].
Proof.
  assert (Hl : ["security-code"; "expiration-date"] <> []) by discriminate.
  do 3 (split; [reflexivity|]). split; [exact Hl|].
  destruct (empty_order_requests_undefined stale_item
              ["security-code"; "expiration-date"]
              (sample_world (sample_client [] (JBool true) (JArr [])) net_up)
              eq_refl eq_refl eq_refl Hl) as (_ & _ & H & _).
  exact H.
Defined.

(** ** Which session cancelCapture cancels *)

(** X20.  [cancelCapture] acts on the session named by the last
    notification, not on the one [startCapture] opened: after the
    [itemUpdated] listener has run on a notification (without throwing),
    the cancel request carries the notification's key as its session id,
    and it is the item with that key that the pay map is asked to
    remove. *)
Theorem cancelCapture_after_notification (args : item) (w : world) (m : sync_map) :
  _payMap (self w) = Some m ->
  let w1 := (payMap_itemUpdated args w).1.2 in
  change_sessions (effects_of (cancelCapture w1)) = [JStr (key args)]
  /\ removed_keys (effects_of (cancelCapture w1)) = [JStr (key args)].
Proof.
  intros Hmap w1.
  assert (Hstate : _payMap (self w1) = Some m /\ _paySid (self w1) = JStr (key args)).
  { subst w1. rewrite payMap_itemUpdated_run.
    set (w0 := with_self (apply_item args (self w)) w).
    pose proof (checkPayProgress_state w0) as Hs. unfold state_of in Hs.
    destruct (_checkPayProgress w0) as [[r w'] t]. cbn [fst snd] in *.
    destruct Hs as [-> | ->]; split; try exact Hmap; reflexivity. }
  destruct Hstate as [Hmap1 Hsid].
  rewrite <- Hsid. exact (cancelCapture_names_current_session w1 m Hmap1).
Qed.

Lemma cancelCapture_after_notification_witness :
  _payMap (self w_start_up) = Some (SyncMap true true)
  /\ _paySid (self w_start_up) = JStr "PK1"
  /\ removed_keys
       (effects_of (cancelCapture (payMap_itemUpdated stale_item w_start_up).1.2))
     = [JStr "PK-stale"].
Proof.
  do 2 (split; [reflexivity|]).
  destruct (cancelCapture_after_notification stale_item w_start_up
              (SyncMap true true) eq_refl) as [_ H].
  exact H.
Defined.
